(** * The polling channel [HTTPSSocket] of app/src/recoil/selectors.ts

    [HTTPSSocket] emulates a WebSocket over HTTP polling.  This file embeds
    the class (lines 21-100 of selectors.ts) as state-passing functions over
    a model of the browser, and proves the channel's properties.

    What the browser contributes is made explicit:
    - [setInterval]/[clearInterval] keep a table of live interval timers;
    - [fetch] puts a request in flight; the environment later settles it
      with a [FetchResult], and the promise chain attached to the request
      runs as one uninterrupted callback;
    - calling a registered handler appends to a log of calls.

    Handlers are opaque: a handler returns normally and does not call back
    into the channel while it runs.  Time is not modelled: a live timer may
    fire at any turn of the event loop, a request in flight may settle at
    any turn and in any order. *)

From stdpp Require Import gmap strings list fin_maps.
From Stdlib Require Import ZArith Lia.

Local Open Scope Z_scope.
Set Warnings "-register-all".

(** ** JSON values and the JavaScript operations applied to them *)

Inductive Json : Type :=
| JNull
| JBool (b : bool)
| JNum (n : Z)
| JStr (s : string)
| JArr (items : list Json)
| JObj (fields : list (string * Json)).

(** Own properties of a parsed object, keys distinct; first binding found. *)
Fixpoint lookup_field (k : string) (fields : list (string * Json)) : option Json :=
  match fields with
  | [] => None
  | (k', v) :: rest => if String.eqb k' k then Some v else lookup_field k rest
  end.

(** [v.k] for the two keys the channel reads, "messages" and "type": only an
    object can carry them; [None] is [undefined]. *)
Definition js_prop (k : string) (v : Json) : option Json :=
  match v with
  | JObj fields => lookup_field k fields
  | _ => None
  end.

(** JavaScript truthiness of a possibly undefined value. *)
Definition truthy (v : option Json) : bool :=
  match v with
  | None => false
  | Some JNull => false
  | Some (JBool b) => b
  | Some (JNum n) => negb (n =? 0)
  | Some (JStr s) => negb (String.eqb s EmptyString)
  | Some (JArr _) => true
  | Some (JObj _) => true
  end.

(** ** The channel object *)

Definition Handler := nat.
Definition TimerId := nat.
Definition RequestId := nat.

(** The constants of [WebSocket]: CONNECTING = 0, OPEN = 1, CLOSING = 2,
    CLOSED = 3. *)
Inductive ReadyState := CONNECTING | OPEN | CLOSING | CLOSED.

Global Instance ReadyState_eq_dec : EqDecision ReadyState.
Proof. solve_decision. Defined.

(** [events] maps an event kind to a JavaScript [Set] of handlers: a list in
    insertion order without duplicates. *)
Record HTTPSSocket := mkHTTPSSocket {
  location : string;
  events : gmap string (list Handler);
  readyState : ReadyState;
  openTimeout : Z;
  timeout : Z;
  interval : option TimerId
}.

(** ** The browser around it *)

(** What a handler is called with: [h(null)] or [h({ data: s })]. *)
Inductive Arg := ANull | AData (data : string).

Global Instance Arg_eq_dec : EqDecision Arg.
Proof. solve_decision. Defined.

(** One handler invocation; [call_kind] is the handler set it was taken from. *)
Record Call := mkCall {
  call_kind : string;
  call_handler : Handler;
  call_arg : Arg
}.

Global Instance Call_eq_dec : EqDecision Call.
Proof. solve_decision. Defined.

(** The promise chain attached to a request when it was issued. *)
Inductive Chain := GatherChain | PullChain | SendChain.

Record Request := mkRequest {
  url : string;
  method : string;
  body : option string;
  chain : Chain
}.

(** How the environment settles a request.  [fetch] rejects on a network
    error and resolves on every HTTP response, whatever its status;
    [response.json()] rejects when the body is not JSON ([None]). *)
Inductive FetchResult :=
| NetworkError
| HttpResponse (status : Z) (parsed : option Json).

Record Browser := mkBrowser {
  this : HTTPSSocket;
  timers : gmap TimerId Z;            (* live interval timers and their periods *)
  next_timer : TimerId;
  peak_timers : nat;                  (* most timers ever live at once *)
  pending : list (RequestId * Request); (* requests in flight, in issue order *)
  next_request : RequestId;
  calls : list Call;                  (* handler invocations, oldest first *)
  unhandled : nat                     (* unhandled promise rejections *)
}.

(** ** Computations: state passing with exceptions *)

Inductive Completion (A : Type) :=
| Normal (a : A)
| Throw.
Arguments Normal {A} a.
Arguments Throw {A}.

Definition JS (A : Type) : Type := Browser → Browser * Completion A.

Global Instance JS_ret : MRet JS := λ A a w, (w, Normal a).

Global Instance JS_bind : MBind JS := λ A B f c w,
  match c w with
  | (w', Normal a) => f a w'
  | (w', Throw) => (w', Throw)
  end.

Definition throw {A} : JS A := λ w, (w, Throw).

(** [c.catch(() => handler)] / [try { c } catch { handler }] *)
Definition catch (c handler : JS unit) : JS unit := λ w,
  match c w with
  | (w', Normal a) => (w', Normal a)
  | (w', Throw) => handler w'
  end.

Definition get_this : JS HTTPSSocket := λ w, (w, Normal (this w)).

Definition update_this (f : HTTPSSocket → HTTPSSocket) : JS unit := λ w,
  (mkBrowser (f (this w)) (timers w) (next_timer w) (peak_timers w)
     (pending w) (next_request w) (calls w) (unhandled w), Normal ()).

Definition exec {A} (c : JS A) (w : Browser) : Browser := fst (c w).

Definition set_events (e : gmap string (list Handler)) (s : HTTPSSocket) :=
  mkHTTPSSocket (location s) e (readyState s) (openTimeout s) (timeout s) (interval s).
Definition set_readyState (r : ReadyState) (s : HTTPSSocket) :=
  mkHTTPSSocket (location s) (events s) r (openTimeout s) (timeout s) (interval s).
Definition set_timeout (t : Z) (s : HTTPSSocket) :=
  mkHTTPSSocket (location s) (events s) (readyState s) (openTimeout s) t (interval s).
Definition set_interval (i : option TimerId) (s : HTTPSSocket) :=
  mkHTTPSSocket (location s) (events s) (readyState s) (openTimeout s) (timeout s) i.

(** *** Browser primitives *)

(** [setInterval] hands out a fresh id; [peak_timers] records the largest
    number of timers that were ever live together. *)
Definition setInterval (period : Z) : JS TimerId := λ w,
  let id := next_timer w in
  let live := <[id := period]> (timers w) in
  (mkBrowser (this w) live (S id) (Nat.max (peak_timers w) (size live))
     (pending w) (next_request w) (calls w) (unhandled w), Normal id).

(** [clearInterval(undefined)] does nothing. *)
Definition clearInterval (t : option TimerId) : JS unit := λ w,
  match t with
  | Some id =>
      (mkBrowser (this w) (delete id (timers w)) (next_timer w) (peak_timers w)
         (pending w) (next_request w) (calls w) (unhandled w), Normal ())
  | None => (w, Normal ())
  end.

Definition fetch (u m : string) (b : option string) (k : Chain) : JS unit := λ w,
  (mkBrowser (this w) (timers w) (next_timer w) (peak_timers w)
     (pending w ++ [(next_request w, mkRequest u m b k)]) (S (next_request w))
     (calls w) (unhandled w), Normal ()).

Definition invoke (kind : string) (a : Arg) (h : Handler) : JS unit := λ w,
  (mkBrowser (this w) (timers w) (next_timer w) (peak_timers w)
     (pending w) (next_request w) (calls w ++ [mkCall kind h a]) (unhandled w),
   Normal ()).

Fixpoint forEach {A} (f : A → JS unit) (xs : list A) : JS unit :=
  match xs with
  | [] => mret ()
  | x :: rest => f x ;; forEach f rest
  end.

(** [this.events.kind.forEach((h) => h(a))]: a TypeError when the table has
    no entry for [kind]. *)
Definition events_forEach (kind : string) (a : Arg) : JS unit :=
  s ← get_this;
  match events s !! kind with
  | None => throw
  | Some hs => forEach (invoke kind a) hs
  end.

(** [response.json()] at the head of each chain. *)
Definition response_json (res : FetchResult) : JS Json :=
  match res with
  | NetworkError => throw
  | HttpResponse _ None => throw
  | HttpResponse _ (Some data) => mret data
  end.

(** Destructuring [{ ... } = data] throws on [null]. *)
Definition destructure (data : Json) : JS unit :=
  match data with
  | JNull => throw
  | _ => mret ()
  end.

(** [messages.forEach]: only an array has it. *)
Definition as_array (v : option Json) : JS (list Json) :=
  match v with
  | Some (JArr items) => mret items
  | _ => throw
  end.

Definition includes (rs : list ReadyState) (r : ReadyState) : bool :=
  bool_decide (r ∈ rs).

(** ** The class *)

(** [JSON.stringify] is a builtin of the JavaScript runtime; the channel
    only passes its result on. *)
Class Runtime := { JSON_stringify : Json → string }.

Section Channel.

Context `{Runtime}.

(** Lines 41-59. *)
Definition execute (messages : option Json) : JS unit :=
  s ← get_this;
  (if includes [CLOSED; CONNECTING] (readyState s) then
     events_forEach "open" ANull;;
     update_this (λ s, set_timeout (openTimeout s) s);;
     s ← get_this;
     clearInterval (interval s);;
     t ← setInterval (timeout s);
     update_this (set_interval (Some t))
   else mret ());;
  update_this (set_readyState OPEN);;
  ms ← as_array messages;
  s ← get_this;
  forEach (λ m, fetch (location s +:+ "&mode=pull") "post"
                  (Some (JSON_stringify m)) PullChain) ms.

(** The callback of the relayed request, lines 54-57. *)
Definition pull_settled (res : FetchResult) : JS unit :=
  data ← response_json res;
  events_forEach "message" (AData (JSON_stringify data)).

(** Lines 61-74: [gather] issues the request ... *)
Definition gather : JS unit :=
  s ← get_this;
  fetch (location s) "get" None GatherChain.

(** ... [gather_then] is the two [then] callbacks ... *)
Definition gather_then (res : FetchResult) : JS unit :=
  data ← response_json res;
  destructure data;;
  execute (js_prop "messages" data).

(** ... and [gather_catch] the [catch] callback. *)
Definition gather_catch : JS unit :=
  s ← get_this;
  (if bool_decide (readyState s = OPEN) && bool_decide (is_Some (events s !! "close"))
   then events_forEach "close" ANull
   else mret ());;
  update_this (set_readyState CLOSED);;
  s ← get_this;
  clearInterval (interval s);;
  update_this (λ s, set_timeout (Z.min (timeout s * 2) 5000) s);;
  s ← get_this;
  t ← setInterval (timeout s);
  update_this (set_interval (Some t)).

Definition gather_settled (res : FetchResult) : JS unit :=
  catch (gather_then res) gather_catch.

(** Lines 36-39. *)
Definition connect : JS unit :=
  gather;;
  s ← get_this;
  t ← setInterval (timeout s);
  update_this (set_interval (Some t)).

(** Lines 76-81; [Set.add] keeps a handler that is already there in place. *)
Definition set_add (h : Handler) (hs : list Handler) : list Handler :=
  if bool_decide (h ∈ hs) then hs else hs ++ [h].

Definition addEventListener (eventType : string) (handler : Handler) : JS unit :=
  s ← get_this;
  (if bool_decide (events s !! eventType = None)
   then update_this (λ s, set_events (<[eventType := []]> (events s)) s)
   else mret ());;
  s ← get_this;
  match events s !! eventType with
  | None => throw
  | Some hs => update_this (set_events (<[eventType := set_add handler hs]> (events s)))
  end.

(** Lines 83-85. *)
Definition set_delete (h : Handler) (hs : list Handler) : list Handler :=
  filter (λ h', h' ≠ h) hs.

Definition removeEventListener (eventType : string) (handler : Handler) : JS unit :=
  s ← get_this;
  match events s !! eventType with
  | None => throw
  | Some hs => update_this (set_events (<[eventType := set_delete handler hs]> (events s)))
  end.

(** Lines 87-99: [send] issues the request, [send_settled] is its chain. *)
Definition send (message : string) : JS unit :=
  s ← get_this;
  fetch (location s +:+ "&mode=push") "post" (Some message) SendChain.

Definition send_settled (res : FetchResult) : JS unit :=
  data ← response_json res;
  destructure data;;
  let messages := js_prop "messages" data in
  let type := js_prop "type" data in
  (if truthy messages then execute messages else mret ());;
  (if truthy type then events_forEach "message" (AData (JSON_stringify data))
   else mret ()).

(** Lines 22-34: field initialisers, then the constructor body. *)
Definition fresh (loc : string) : Browser :=
  mkBrowser (mkHTTPSSocket loc ∅ CONNECTING 2000 2000 None) ∅ 1%nat 0%nat [] 0%nat [] 0%nat.

Definition new_HTTPSSocket (loc : string) : Browser :=
  exec connect (fresh loc).

(** ** The event loop *)

Inductive Action :=
| Tick (t : TimerId)                          (* interval timer [t] fires *)
| Settle (r : RequestId) (res : FetchResult)  (* request [r] settles *)
| AddListener (k : string) (h : Handler)
| RemoveListener (k : string) (h : Handler)
| Send (message : string).

Fixpoint find_request (r : RequestId) (l : list (RequestId * Request)) : option Request :=
  match l with
  | [] => None
  | (r', q) :: rest => if Nat.eqb r' r then Some q else find_request r rest
  end.

Definition drop_request (r : RequestId) (w : Browser) : Browser :=
  mkBrowser (this w) (timers w) (next_timer w) (peak_timers w)
    (filter (λ p, p.1 ≠ r) (pending w)) (next_request w) (calls w) (unhandled w).

Definition chain_settled (k : Chain) (res : FetchResult) : JS unit :=
  match k with
  | GatherChain => gather_settled res
  | PullChain => pull_settled res
  | SendChain => send_settled res
  end.

(** A chain that ends rejected has no handler left: the rejection is
    reported by the runtime and nobody in the program sees it. *)
Definition top_level (c : JS unit) (w : Browser) : Browser :=
  match c w with
  | (w', Normal _) => w'
  | (w', Throw) =>
      mkBrowser (this w') (timers w') (next_timer w') (peak_timers w')
        (pending w') (next_request w') (calls w') (S (unhandled w'))
  end.

(** One turn of the event loop.  A timer that is not live cannot fire and a
    request that is not in flight cannot settle: such actions change nothing.
    For a call from outside, an exception goes to the caller and the state
    reached is kept. *)
Definition step (w : Browser) (a : Action) : Browser :=
  match a with
  | Tick t =>
      if bool_decide (is_Some (timers w !! t)) then exec gather w else w
  | Settle r res =>
      match find_request r (pending w) with
      | Some q => top_level (chain_settled (chain q) res) (drop_request r w)
      | None => w
      end
  | AddListener k h => exec (addEventListener k h) w
  | RemoveListener k h => exec (removeEventListener k h) w
  | Send m => exec (send m) w
  end.

Definition run (acts : list Action) (w : Browser) : Browser :=
  fold_left step acts w.

Definition reachable (w : Browser) : Prop :=
  ∃ loc acts, w = run acts (new_HTTPSSocket loc).

End Channel.

(** ** Vocabulary of the properties *)

(** The handlers registered under a kind; none when the table has no entry. *)
Definition handlers (k : string) (w : Browser) : list Handler :=
  default [] (events (this w) !! k).

Definition calls_to (k : string) (a : Arg) (hs : list Handler) : list Call :=
  map (λ h, mkCall k h a) hs.

(** The calls of handler [h] for an event of kind [k] in a log, counted. *)
Definition calls_to_count (k : string) (h : Handler) (cs : list Call) : nat :=
  length (filter (λ c, call_kind c = k ∧ call_handler c = h) cs).

(** How often handler [h] has been called for an event of kind [k]. *)
Definition fired (k : string) (h : Handler) (w : Browser) : nat :=
  calls_to_count k h (calls w).

(** The period of the timer the channel holds. *)
Definition scheduled (w : Browser) : option Z :=
  match interval (this w) with
  | Some t => timers w !! t
  | None => None
  end.

(** A poll response that carries a batch: a JSON object with an array under
    "messages". *)
Definition batch_of (res : FetchResult) : option (list Json) :=
  match res with
  | HttpResponse _ (Some data) =>
      match js_prop "messages" data with
      | Some (JArr ms) => Some ms
      | _ => None
      end
  | _ => None
  end.

(** The request rejects or its body is not JSON. *)
Definition transport_failure (res : FetchResult) : bool :=
  match res with
  | NetworkError => true
  | HttpResponse _ None => true
  | HttpResponse _ (Some _) => false
  end.

(** ** State after each block of the callbacks *)

Definition add_calls (cs : list Call) (w : Browser) : Browser :=
  mkBrowser (this w) (timers w) (next_timer w) (peak_timers w)
    (pending w) (next_request w) (calls w ++ cs) (unhandled w).

Fixpoint number (n : RequestId) (qs : list Request) : list (RequestId * Request) :=
  match qs with
  | [] => []
  | q :: rest => (n, q) :: number (S n) rest
  end.

Definition add_requests (qs : list Request) (w : Browser) : Browser :=
  mkBrowser (this w) (timers w) (next_timer w) (peak_timers w)
    (pending w ++ number (next_request w) qs) (next_request w + length qs)%nat
    (calls w) (unhandled w).

Definition clear (i : option TimerId) (live : gmap TimerId Z) : gmap TimerId Z :=
  match i with
  | Some t => delete t live
  | None => live
  end.

(** Handlers called, state and period assigned, timer cleared and armed. *)
Definition rearmed (p : Z) (rs : ReadyState) (cs : list Call) (w : Browser) : Browser :=
  let live := <[next_timer w := p]> (clear (interval (this w)) (timers w)) in
  mkBrowser
    (mkHTTPSSocket (location (this w)) (events (this w)) rs (openTimeout (this w)) p
       (Some (next_timer w)))
    live (S (next_timer w)) (Nat.max (peak_timers w) (size live))
    (pending w) (next_request w) (calls w ++ cs) (unhandled w).

(** Lines 43-48 when the state was CLOSED or CONNECTING. *)
Definition after_open (w : Browser) : Browser :=
  rearmed (openTimeout (this w)) OPEN (calls_to "open" ANull (handlers "open" w)) w.

(** Line 48 alone. *)
Definition mark_open (w : Browser) : Browser :=
  mkBrowser (set_readyState OPEN (this w)) (timers w) (next_timer w) (peak_timers w)
    (pending w) (next_request w) (calls w) (unhandled w).

(** Lines 66-72. *)
Definition after_catch (w : Browser) : Browser :=
  rearmed (Z.min (timeout (this w) * 2) 5000) CLOSED
    (if bool_decide (readyState (this w) = OPEN)
     then calls_to "close" ANull (handlers "close" w) else []) w.

Section Vocabulary.
Context `{Runtime}.

(** The request of lines 50-53 for one message. *)
Definition relay (loc : string) (m : Json) : Request :=
  mkRequest (loc +:+ "&mode=pull") "post" (Some (JSON_stringify m)) PullChain.

(** Lines 49-58: one request per message. *)
Definition relayed (ms : list Json) (w : Browser) : Browser :=
  add_requests (map (relay (location (this w))) ms) w.

(** The calls made when a relayed request settles. *)
Definition delivered (hs : list Handler) (res : FetchResult) : list Call :=
  match res with
  | HttpResponse _ (Some data) => calls_to "message" (AData (JSON_stringify data)) hs
  | _ => []
  end.

(** The [then] callbacks of a poll run to their end. *)
Definition poll_succeeds (res : FetchResult) (w : Browser) : bool :=
  match gather_then res w with
  | (_, Normal _) => true
  | (_, Throw) => false
  end.

(** Polls settling one after the other. *)
Definition polls (rs : list FetchResult) (w : Browser) : Browser :=
  fold_left (λ w r, exec (gather_settled r) w) rs w.

(** Relayed requests settling one after the other. *)
Definition pulls (rs : list FetchResult) (w : Browser) : Browser :=
  fold_left (λ w r, top_level (pull_settled r) w) rs w.

End Vocabulary.

(** From [w] to [w'] the handler table is unchanged and every call made was
    to a handler registered in [w] under the kind of the call. *)
Definition delivers_to_registered (w w' : Browser) : Prop :=
  events (this w') = events (this w)
  ∧ ∃ cs, calls w' = calls w ++ cs
          ∧ Forall (λ c, call_handler c ∈ handlers (call_kind c) w) cs.


(** What holds of the channel between callbacks. *)
Record Inv (w : Browser) : Prop := mkInv {
  inv_timer : ∃ t, interval (this w) = Some t ∧ timers w = {[t := timeout (this w)]};
  inv_peak : peak_timers w = 1%nat;
  inv_open : openTimeout (this w) = 2000;
  inv_range : 2000 ≤ timeout (this w) ≤ 5000;
  inv_base : readyState (this w) ≠ CLOSED → timeout (this w) = 2000;
  inv_state : readyState (this w) ≠ CLOSING;
  inv_sets : ∀ k hs, events (this w) !! k = Some hs → NoDup hs
}.

(** ** A concrete runtime and channel for the examples *)

(** Strings are written as they are; any other value as a fixed word. *)
Definition sample_stringify (j : Json) : string :=
  match j with
  | JStr s => s
  | _ => "json"
  end.

Definition sample_runtime : Runtime := {| JSON_stringify := sample_stringify |}.

Definition sample_location : string := "http://localhost:5151/polling?sessionId=s".

(** A poll response with the given status and batch. *)
Definition batch_response (status : Z) (ms : list Json) : FetchResult :=
  HttpResponse status (Some (JObj [("messages", JArr ms)])).

(** The failing polls of the specification: network error, non-2xx status,
    or a body that is not JSON. *)
Definition spec_poll_failure (res : FetchResult) : bool :=
  match res with
  | NetworkError => true
  | HttpResponse status None => true
  | HttpResponse status (Some _) => negb ((200 <=? status) && (status <? 300))
  end.

Section Samples.
Local Existing Instance sample_runtime.

(** Just constructed: CONNECTING, poll 0 in flight, timer 1 armed. *)
Definition sample_new : Browser := new_HTTPSSocket sample_location.

(** Handler 1 for "open", 2 for "message", 3 for "close". *)
Definition sample_registered : Browser :=
  run [AddListener "open" 1%nat; AddListener "message" 2%nat;
       AddListener "close" 3%nat] sample_new.

(** OPEN after a first poll with an empty batch; timer 2 armed. *)
Definition sample_open : Browser :=
  run [Settle 0%nat (batch_response 200 [])] sample_registered.

(** OPEN with poll 1 in flight. *)
Definition sample_polling : Browser := run [Tick 2%nat] sample_open.

(** OPEN with the request 1 of a [send] in flight. *)
Definition sample_sending : Browser := run [Send "update"] sample_open.

(** CLOSED after poll 1 failed; a [send] then put request 2 in flight. *)
Definition sample_closed_sending : Browser :=
  run [Settle 1%nat NetworkError; Send "update"] sample_polling.

End Samples.

(** ** More vocabulary for the channel *)

(** A chain ended rejected with nobody left to handle it. *)
Definition rejected (w : Browser) : Browser :=
  mkBrowser (this w) (timers w) (next_timer w) (peak_timers w)
    (pending w) (next_request w) (calls w) (S (unhandled w)).

(** The three shapes of call the class makes: [h(null)] for "open" and
    "close", [h({ data })] for "message". *)
Definition channel_call (c : Call) : Prop :=
  (call_kind c = "open" ∧ call_arg c = ANull)
  ∨ (call_kind c = "close" ∧ call_arg c = ANull)
  ∨ (call_kind c = "message" ∧ ∃ d, call_arg c = AData d).

(** The three requests the class issues for a location: the poll of line
    62, the relay of lines 50-53 and the push of lines 88-91. *)
Definition channel_request (loc : string) (q : Request) : Prop :=
  q = mkRequest loc "get" None GatherChain
  ∨ (∃ b, q = mkRequest (loc +:+ "&mode=pull") "post" (Some b) PullChain)
  ∨ (∃ b, q = mkRequest (loc +:+ "&mode=push") "post" (Some b) SendChain).

(** The values the retry interval takes. *)
Definition retry_value (t : Z) : Prop := t = 2000 ∨ t = 4000 ∨ t = 5000.

(** * The selectors below the class *)

(** A JavaScript value that may be [undefined]. *)
Abbreviation Value := (option Json).

(** ** String operations of the runtime used by the selectors *)

Definition dot : Ascii.ascii := Ascii.ascii_of_nat 46.

(** [s.split(".")]: the pieces between the dots, at least one. *)
Fixpoint split_dots (piece s : string) : list string :=
  match s with
  | EmptyString => [piece]
  | String c rest =>
      if Ascii.eqb c dot then piece :: split_dots EmptyString rest
      else split_dots (piece +:+ String c EmptyString) rest
  end.

Definition split_dot (s : string) : list string := split_dots EmptyString s.

(** [s.includes(".")] *)
Fixpoint has_dot (s : string) : bool :=
  match s with
  | EmptyString => false
  | String c rest => Ascii.eqb c dot || has_dot rest
  end.

(** [a.slice(-1)[0]] on the pieces of a split. *)
Definition last_piece (pieces : list string) : string :=
  default EmptyString (last pieces).

(** [s.slice(n)] for [n] within the string. *)
Fixpoint slice (n : nat) (s : string) : string :=
  match n, s with
  | O, _ => s
  | S n', String _ rest => slice n' rest
  | S _, EmptyString => EmptyString
  end.

Definition startsWith (p s : string) : bool := String.prefix p s.

(** Truthiness of a string or [null]. *)
Definition truthy_string (s : option string) : bool :=
  match s with
  | Some s => negb (String.eqb s EmptyString)
  | None => false
  end.

(** ** [appContext], lines 228-245 *)

(** [electron] is the result of [isElectron()], [notebook] that of
    [get(isNotebook)], the "notebook" parameter of the page's address or
    [null]; line 233 reads [isNotebook] for [colab] as well. *)
Definition appContext (electron : bool) (notebook : option string) : string :=
  let colab := notebook in
  if electron then "desktop"
  else if truthy_string colab then "colab"
  else if truthy_string notebook then "notebook"
  else "browser".

(** ** [totalCount] and [filteredCount], lines 406-426 *)

(** An aggregation result is an object; [stats] is [null] or an array of
    them.  The callback of [reduce]: *)
Definition null_named (acc : Value) (cur : list (string * Json)) : Value :=
  match lookup_field "name" cur with
  | Some JNull => lookup_field "result" cur
  | _ => acc
  end.

(** [cur.name === null] *)
Definition has_null_name (cur : list (string * Json)) : bool :=
  match lookup_field "name" cur with
  | Some JNull => true
  | _ => false
  end.

Definition totalCount (datasetStats : option (list (list (string * Json)))) : Value :=
  fold_left null_named (default [] datasetStats) (Some JNull).

Definition filteredCount (extendedDatasetStats : option (list (list (string * Json))))
  : Value :=
  fold_left null_named (default [] extendedDatasetStats) (Some JNull).

(** ** Labels and scalars, lines 472-481 and 573-633, 713-746 *)

(** A field of the schema. *)
Record Field := mkField {
  name : string;
  ftype : string;
  embedded_doc_type : option string
}.

(** [f.embedded_doc_type.split(".").slice(-1)[0]] of a field with a type. *)
Definition doc_type_name (f : Field) : string :=
  last_piece (split_dot (default EmptyString (embedded_doc_type f))).

Section Fields.

(** Constants of utils/labels. *)
Variable VALID_LABEL_TYPES : list string.
Variable VALID_SCALAR_TYPES : list string.

Definition labelFilter (f : Field) : bool :=
  match embedded_doc_type f with
  | Some t =>
      truthy_string (Some t)
      && bool_decide (last_piece (split_dot t) ∈ VALID_LABEL_TYPES)
  | None => false
  end.

Definition scalarFilter (f : Field) : bool :=
  bool_decide (ftype f ∈ VALID_SCALAR_TYPES).

(** [selected] are the values of [selectedFields(dimension)] in the order of
    its keys. *)
Definition labels (selected : list Field) : list Field :=
  filter (λ f, labelFilter f = true) selected.

Definition labelNames (selected : list Field) : list string :=
  map name (labels selected).

(** [l.embedded_doc_type.split(".")] throws when the type is [null]. *)
Definition labelTypes (selected : list Field) : option (list string) :=
  mapM (λ l, t ← embedded_doc_type l; Some (last_piece (split_dot t))) (labels selected).

Definition scalars (selected : list Field) : list Field :=
  filter (λ f, scalarFilter f = true) selected.

Definition scalarNames (selected : list Field) : list string :=
  map name (scalars selected).

Definition scalarTypes (selected : list Field) : list string :=
  map ftype (scalars selected).

End Fields.

(** [names.map((n, i) => [n, types[i]])]; [types[i]] is [undefined] past the
    end of [types]. *)
Definition labelTuples (names types : list string) : list (string * option string) :=
  imap (λ i n, (n, types !! i)) names.

(** [{ [cur[0]]: cur[1], ...acc }]: what [acc] has is kept. *)
Definition labelMap (tuples : list (string * option string))
  : gmap string (option string) :=
  fold_left (λ acc cur, acc ∪ {[cur.1 := cur.2]}) tuples ∅.

(** [{ ...acc, [cur]: types[i] }]: the new entry replaces. *)
Fixpoint scalarsMap_from (i : nat) (types names : list string)
    (acc : gmap string (option string)) : gmap string (option string) :=
  match names with
  | [] => acc
  | cur :: rest => scalarsMap_from (S i) types rest (<[cur := types !! i]> acc)
  end.

Definition scalarsMap (names types : list string) : gmap string (option string) :=
  scalarsMap_from 0 types names ∅.

(** ** [labelsPath], lines 639-652 *)

Section LabelsPath.

(** A constant of utils/labels and a builtin of the runtime. *)
Variable VALID_LIST_TYPES : list string.
Variable toLowerCase : string → string.

(** [isVideo] is [get(isVideoDataset)], [labelMap_of] is [get(labelMap(d))]. *)
Definition labelsPath (isVideo : bool)
    (labelMap_of : string → gmap string (option string)) (path : string) : string :=
  let dimension :=
    if isVideo && startsWith "frames." path then "frame" else "sample" in
  let label :=
    if String.eqb dimension "frame" then slice (String.length "frames.") path
    else path in
  match mjoin (labelMap_of dimension !! label) with
  | Some type =>
      if bool_decide (type ∈ VALID_LIST_TYPES)
      then path +:+ "." +:+ toLowerCase type +:+ ".label"
      else path +:+ ".label"
  | None => path +:+ ".label"
  end.

End LabelsPath.

(** ** [filterStage], lines 328-345 *)


Section FilterStage.
Context `{Runtime}.



End FilterStage.

(** * Properties *)

Section Properties.
Context `{Runtime}.

(** ** The callbacks, block by block *)

Lemma add_calls_nil w : add_calls [] w = w.
Proof. destruct w; unfold add_calls; simpl. by rewrite app_nil_r. Qed.

Lemma forEach_invoke k a hs w :
  forEach (invoke k a) hs w = (add_calls (calls_to k a hs) w, Normal ()).
Proof.
  revert w. induction hs as [|h hs IH]; intros w.
  - by rewrite add_calls_nil.
  - simpl. unfold mbind, JS_bind. simpl. rewrite IH. unfold add_calls. simpl.
    by rewrite <- app_assoc.
Qed.

Lemma forEach_fetch {A} (f : A → Request) (xs : list A) w :
  forEach (λ x, fetch (url (f x)) (method (f x)) (body (f x)) (chain (f x))) xs w
  = (add_requests (map f xs) w, Normal ()).
Proof.
  revert w. induction xs as [|x xs IH]; intros w.
  - destruct w. unfold add_requests. simpl.
    by rewrite app_nil_r, Nat.add_0_r.
  - simpl. unfold mbind, JS_bind. simpl. rewrite IH. unfold add_requests. simpl.
    rewrite <- app_assoc. simpl. destruct (f x). simpl.
    do 3 f_equal. lia.
Qed.

Lemma events_forEach_eq k a w :
  events_forEach k a w =
    match events (this w) !! k with
    | None => (w, Throw)
    | Some hs => (add_calls (calls_to k a hs) w, Normal ())
    end.
Proof.
  unfold events_forEach, mbind, JS_bind, get_this, throw.
  destruct (events (this w) !! k); [apply forEach_invoke | done].
Qed.

Lemma gather_catch_eq w : gather_catch w = (after_catch w, Normal ()).
Proof.
  unfold gather_catch, after_catch, rearmed, handlers, mbind, JS_bind, get_this.
  destruct w as [[loc ev rs ot to iv] tm nt pk pe nr cs un]. simpl.
  destruct (bool_decide (rs = OPEN)); simpl.
  - destruct (ev !! "close") as [hs|] eqn:E; simpl.
    + rewrite events_forEach_eq. simpl. rewrite E. destruct iv; reflexivity.
    + rewrite app_nil_r. destruct iv; reflexivity.
  - rewrite app_nil_r. destruct iv; reflexivity.
Qed.

Lemma as_array_eq m w :
  as_array m w = match m with Some (JArr ms) => (w, Normal ms) | _ => (w, Throw) end.
Proof. destruct m as [[]|]; reflexivity. Qed.

Lemma execute_eq m w :
  execute m w =
    if includes [CLOSED; CONNECTING] (readyState (this w)) then
      match events (this w) !! "open" with
      | None => (w, Throw)
      | Some _ =>
          match m with
          | Some (JArr ms) => (relayed ms (after_open w), Normal ())
          | _ => (after_open w, Throw)
          end
      end
    else
      match m with
      | Some (JArr ms) => (relayed ms (mark_open w), Normal ())
      | _ => (mark_open w, Throw)
      end.
Proof.
  unfold execute, mbind, JS_bind, get_this.
  destruct w as [[loc ev rs ot to iv] tm nt pk pe nr cs un]. simpl.
  destruct (includes _ rs); simpl.
  - rewrite events_forEach_eq. unfold after_open, rearmed, handlers. simpl.
    destruct (ev !! "open") as [hs|] eqn:E; [|done]. simpl.
    destruct iv; simpl; rewrite as_array_eq; destruct m as [[]|]; try reflexivity;
      apply (forEach_fetch (relay loc)).
  - rewrite as_array_eq. destruct m as [[]|]; try reflexivity.
    apply (forEach_fetch (relay loc)).
Qed.

Lemma gather_then_eq res w :
  gather_then res w =
    match res with
    | HttpResponse _ (Some JNull) => (w, Throw)
    | HttpResponse _ (Some data) => execute (js_prop "messages" data) w
    | _ => (w, Throw)
    end.
Proof. destruct res as [|st [[]|]]; reflexivity. Qed.

Lemma gather_settled_eq res w :
  gather_settled res w =
    match gather_then res w with
    | (w1, Normal _) => (w1, Normal ())
    | (w1, Throw) => (after_catch w1, Normal ())
    end.
Proof.
  unfold gather_settled, catch.
  destruct (gather_then res w) as [w1 [[]|]]; [done | apply gather_catch_eq].
Qed.

Lemma gather_settled_failure res w :
  transport_failure res = true → gather_settled res w = (after_catch w, Normal ()).
Proof.
  intros Hf. rewrite gather_settled_eq, gather_then_eq.
  by destruct res as [|st [data|]].
Qed.

Lemma gather_settled_batch res ms w :
  batch_of res = Some ms →
  gather_settled res w =
    if includes [CLOSED; CONNECTING] (readyState (this w)) then
      match events (this w) !! "open" with
      | None => (after_catch w, Normal ())
      | Some _ => (relayed ms (after_open w), Normal ())
      end
    else (relayed ms (mark_open w), Normal ()).
Proof.
  intros Hb. rewrite gather_settled_eq, gather_then_eq.
  destruct res as [|st [data|]]; try done. simpl in Hb.
  destruct data; try done. simpl in *.
  rewrite execute_eq.
  destruct (lookup_field "messages" fields) as [[]|]; try done.
  injection Hb as ->.
  destruct (includes _ _); [destruct (events (this w) !! "open")|]; done.
Qed.

Lemma pull_settled_eq res w :
  top_level (pull_settled res) w =
    match res, events (this w) !! "message" with
    | HttpResponse _ (Some data), Some hs =>
        add_calls (calls_to "message" (AData (JSON_stringify data)) hs) w
    | _, _ =>
        mkBrowser (this w) (timers w) (next_timer w) (peak_timers w)
          (pending w) (next_request w) (calls w) (S (unhandled w))
    end.
Proof.
  unfold top_level, pull_settled, mbind, JS_bind.
  destruct res as [|st [data|]]; simpl; try done.
  rewrite events_forEach_eq. by destruct (events (this w) !! "message").
Qed.

(** ** The invariant *)

Lemma rearmed_Inv p rs cs w :
  Inv w → 2000 ≤ p ≤ 5000 → rs ≠ CLOSING → (rs ≠ CLOSED → p = 2000) →
  Inv (rearmed p rs cs w).
Proof.
  intros [(t & Ht & Hl) Hp Ho Hr Hb Hs Hn] Hp1 Hp2 Hp3.
  assert (<[next_timer w := p]> (clear (interval (this w)) (timers w))
          = {[next_timer w := p]}) as Hlive.
  { rewrite Ht, Hl. simpl. by rewrite delete_singleton_eq, insert_empty. }
  split; unfold rearmed; simpl; try done.
  - exists (next_timer w). by rewrite Hlive.
  - rewrite Hlive, Hp, map_size_singleton. done.
Qed.

Lemma after_catch_Inv w : Inv w → Inv (after_catch w).
Proof.
  intros HI. apply rearmed_Inv; try done.
  destruct HI. lia.
Qed.

Lemma after_open_Inv w : Inv w → Inv (after_open w).
Proof.
  intros HI. pose proof (inv_open w HI) as Ho.
  apply rearmed_Inv; try done. lia.
Qed.

Lemma mark_open_Inv w :
  Inv w → includes [CLOSED; CONNECTING] (readyState (this w)) = false →
  Inv (mark_open w).
Proof.
  intros [Ht Hp Ho Hr Hb Hs Hn] Hi.
  split; simpl; try done.
  intros _. apply Hb. intros Hc. rewrite Hc in Hi. done.
Qed.

Lemma add_requests_Inv qs w : Inv w → Inv (add_requests qs w).
Proof. intros []. by split. Qed.

Lemma add_calls_Inv cs w : Inv w → Inv (add_calls cs w).
Proof. intros []. by split. Qed.

Lemma execute_Inv m w : Inv w → Inv (execute m w).1.
Proof.
  intros HI. rewrite execute_eq.
  destruct (includes _ _) eqn:Hi.
  - destruct (events (this w) !! "open"); [|done].
    destruct m as [[]|]; simpl; try apply add_requests_Inv; by apply after_open_Inv.
  - destruct m as [[]|]; simpl; try apply add_requests_Inv; by apply mark_open_Inv.
Qed.

Lemma gather_settled_Inv res w : Inv w → Inv (exec (gather_settled res) w).
Proof.
  intros HI. unfold exec. rewrite gather_settled_eq.
  assert (Inv (gather_then res w).1) as H1.
  { rewrite gather_then_eq.
    destruct res as [|st [[]|]]; simpl; try done; by apply execute_Inv. }
  destruct (gather_then res w) as [w1 [[]|]]; simpl in *; [done|].
  by apply after_catch_Inv.
Qed.

Lemma top_level_Inv c w : Inv (c w).1 → Inv (top_level c w).
Proof.
  unfold top_level. destruct (c w) as [w1 [[]|]]; simpl; [done|].
  intros []. by split.
Qed.

Lemma events_forEach_Inv k a w : Inv w → Inv (events_forEach k a w).1.
Proof.
  intros HI. rewrite events_forEach_eq.
  destruct (events (this w) !! k); simpl; [by apply add_calls_Inv | done].
Qed.

Lemma send_settled_eq res w :
  send_settled res w =
    match res with
    | HttpResponse _ (Some JNull) => (w, Throw)
    | HttpResponse _ (Some data) =>
        match (if truthy (js_prop "messages" data)
               then execute (js_prop "messages" data) w else (w, Normal ())) with
        | (w1, Normal _) =>
            if truthy (js_prop "type" data)
            then events_forEach "message" (AData (JSON_stringify data)) w1
            else (w1, Normal ())
        | (w1, Throw) => (w1, Throw)
        end
    | _ => (w, Throw)
    end.
Proof.
  unfold send_settled, mbind, JS_bind.
  destruct res as [|st [data|]]; simpl; try done.
  destruct data; simpl; try done;
    repeat match goal with |- context [if ?b then _ else _] => destruct b end; done.
Qed.

Lemma send_settled_Inv res w : Inv w → Inv (send_settled res w).1.
Proof.
  intros HI. rewrite send_settled_eq.
  destruct res as [|st [data|]]; simpl; try done.
  assert (Inv ((if truthy (js_prop "messages" data)
                then execute (js_prop "messages" data) w else (w, Normal ())).1)) as H1.
  { destruct (truthy _); [by apply execute_Inv | done]. }
  destruct (if truthy (js_prop "messages" data) then _ else _)
    as [w1 [[]|]]; simpl in *.
  - destruct data; try done;
      (destruct (truthy _); [by apply events_forEach_Inv | done]).
  - by destruct data.
Qed.

Lemma pull_settled_Inv res w : Inv w → Inv (pull_settled res w).1.
Proof.
  intros HI. unfold pull_settled, mbind, JS_bind.
  destruct res as [|st [data|]]; simpl; try done.
  by apply events_forEach_Inv.
Qed.

Lemma set_add_NoDup h hs : NoDup hs → NoDup (set_add h hs).
Proof.
  intros Hn. unfold set_add. case_bool_decide as Hin; [done|].
  apply NoDup_app. split_and!; [done | | apply NoDup_singleton].
  intros x Hx Hx'. apply list_elem_of_singleton in Hx'. by subst.
Qed.

Lemma addEventListener_eq k h w :
  addEventListener k h w =
    (mkBrowser (set_events (<[k := set_add h (handlers k w)]> (events (this w))) (this w))
       (timers w) (next_timer w) (peak_timers w) (pending w) (next_request w)
       (calls w) (unhandled w), Normal ()).
Proof.
  unfold addEventListener, handlers, mbind, JS_bind, get_this.
  destruct w as [[loc ev rs ot to iv] tm nt pk pe nr cs un]. simpl.
  case_bool_decide as Hk; simpl.
  - rewrite lookup_insert_eq, Hk. simpl. unfold update_this, set_events. simpl.
    by rewrite insert_insert_eq.
  - destruct (ev !! k); done.
Qed.

Lemma removeEventListener_eq k h w :
  removeEventListener k h w =
    match events (this w) !! k with
    | None => (w, Throw)
    | Some hs =>
        (mkBrowser (set_events (<[k := set_delete h hs]> (events (this w))) (this w))
           (timers w) (next_timer w) (peak_timers w) (pending w) (next_request w)
           (calls w) (unhandled w), Normal ())
    end.
Proof.
  unfold removeEventListener, mbind, JS_bind, get_this. simpl.
  by destruct (events (this w) !! k).
Qed.

Lemma step_Inv w a : Inv w → Inv (step w a).
Proof.
  intros HI. destruct a as [t|r res|k h|k h|m]; simpl.
  - case_bool_decide; [|done]. destruct HI. by split.
  - destruct (find_request r (pending w)) as [q|]; [|done].
    apply top_level_Inv.
    assert (Inv (drop_request r w)) as HI' by (destruct HI; by split).
    destruct (chain q); simpl.
    + by apply gather_settled_Inv.
    + by apply pull_settled_Inv.
    + by apply send_settled_Inv.
  - unfold exec. rewrite addEventListener_eq. destruct HI as [Ht Hp Ho Hr Hb Hs Hn].
    split; simpl; try done.
    intros k' hs'. destruct (decide (k = k')) as [->|Hne].
    + rewrite lookup_insert_eq. intros [= <-]. apply set_add_NoDup.
      unfold handlers. destruct (events (this w) !! k') eqn:E; simpl.
      * by eapply Hn. * apply NoDup_nil_2.
    + rewrite lookup_insert_ne by done. apply Hn.
  - unfold exec. rewrite removeEventListener_eq.
    destruct (events (this w) !! k) as [hs|] eqn:E; [|done].
    destruct HI as [Ht Hp Ho Hr Hb Hs Hn]. split; simpl; try done.
    intros k' hs'. destruct (decide (k = k')) as [->|Hne].
    + rewrite lookup_insert_eq. intros [= <-]. apply NoDup_filter. by eapply Hn.
    + rewrite lookup_insert_ne by done. apply Hn.
  - destruct HI. by split.
Qed.

Lemma new_HTTPSSocket_Inv loc : Inv (new_HTTPSSocket loc).
Proof.
  split; simpl; try done.
  by exists 1%nat.
Qed.

Lemma run_Inv acts w : Inv w → Inv (run acts w).
Proof.
  revert w. induction acts as [|a acts IH]; intros w HI; [done|].
  simpl. apply IH. by apply step_Inv.
Qed.

Lemma reachable_Inv w : reachable w → Inv w.
Proof. intros (loc & acts & ->). apply run_Inv, new_HTTPSSocket_Inv. Qed.

(** ** Facts used by several properties *)

Lemma Inv_scheduled w : Inv w → scheduled w = Some (timeout (this w)).
Proof.
  intros [(t & Ht & Hl) _ _ _ _ _ _]. unfold scheduled.
  rewrite Ht, Hl. apply lookup_singleton_eq.
Qed.


Lemma polls_snoc rs r w :
  polls (rs ++ [r]) w = exec (gather_settled r) (polls rs w).
Proof. unfold polls. by rewrite fold_left_app. Qed.

Lemma poll_succeeds_open res w :
  poll_succeeds res w = true →
  readyState (this (exec (gather_settled res) w)) = OPEN.
Proof.
  unfold poll_succeeds, exec. rewrite gather_settled_eq, gather_then_eq.
  assert (∀ m, match execute m w with (_, Normal _) => true | (_, Throw) => false end = true →
               readyState (this (match execute m w with
                                 | (w1, Normal _) => (w1, Normal ())
                                 | (w1, Throw) => (after_catch w1, Normal ())
                                 end).1) = OPEN) as He.
  { intros m. rewrite execute_eq.
    destruct (includes _ _); [destruct (events (this w) !! "open")|];
      destruct m as [[]|]; done. }
  destruct res as [|st [[]|]]; try done; apply He.
Qed.

Lemma poll_without_open res w :
  events (this w) !! "open" = None →
  includes [CLOSED; CONNECTING] (readyState (this w)) = true →
  gather_settled res w = (after_catch w, Normal ()).
Proof.
  intros He Hi. rewrite gather_settled_eq, gather_then_eq.
  destruct res as [|st [[]|]]; try done; by rewrite execute_eq, Hi, He.
Qed.

Lemma after_catch_quiet w :
  readyState (this w) ≠ OPEN → calls (after_catch w) = calls w.
Proof.
  intros Hno. unfold after_catch, rearmed. simpl.
  case_bool_decide; [done | by rewrite app_nil_r].
Qed.

Lemma polls_without_open rs w :
  events (this w) !! "open" = None →
  includes [CLOSED; CONNECTING] (readyState (this w)) = true →
  readyState (this (polls rs w)) ≠ OPEN
  ∧ pending (polls rs w) = pending w
  ∧ calls (polls rs w) = calls w.
Proof.
  revert w. induction rs as [|r rs IH]; intros w He Hi.
  - split_and!; try done. simpl. intros Ho. by rewrite Ho in Hi.
  - simpl. unfold exec. rewrite (poll_without_open r w He Hi). simpl.
    destruct (IH (after_catch w)) as (H1 & H2 & H3); try done.
    split_and!; [done | by rewrite H2 |].
    rewrite H3. apply after_catch_quiet. intros Ho. by rewrite Ho in Hi.
Qed.


(** ** The properties *)

(** C8: in every reachable state the channel's timer is the only live
    interval timer, and at no moment, not even inside a callback, were two
    timers live: the open transition and the failure branch both clear the
    timer they hold before arming the next one. *)
Theorem one_poll_timer w :
  reachable w →
  (size (timers w) ≤ 1)%nat ∧ (peak_timers w ≤ 1)%nat ∧
  ∃ t, interval (this w) = Some t ∧ timers w = {[t := timeout (this w)]}.
Proof.
  intros Hr. destruct (reachable_Inv w Hr) as [(t & Ht & Hl) Hp _ _ _ _ _].
  split_and!.
  - rewrite Hl, map_size_singleton. lia.
  - lia.
  - by exists t.
Qed.

(** C10: with no entry for "open" in the handler table, a poll whose
    response parses while the state is CLOSED or CONNECTING throws inside
    the success callback, at the read of the missing "open" set, before
    anything is changed, and is handled by the failure branch: the state
    becomes CLOSED, the retry interval is doubled (up to the cap of 5000),
    no request is issued for the batch and no handler is called; however
    many polls settle, the state is never OPEN. *)
Theorem poll_without_open_handlers_fails w st data :
  events (this w) !! "open" = None →
  readyState (this w) ∈ [CLOSED; CONNECTING] →
  let res := HttpResponse st (Some data) in
  let w' := exec (gather_settled res) w in
  execute (js_prop "messages" data) w = (w, Throw)
  ∧ gather_then res w = (w, Throw)
  ∧ w' = exec gather_catch w
  ∧ readyState (this w') = CLOSED
  ∧ timeout (this w') = Z.min (timeout (this w) * 2) 5000
  ∧ (timeout (this w) * 2 ≤ 5000 → timeout (this w') = timeout (this w) * 2)
  ∧ pending w' = pending w
  ∧ calls w' = calls w
  ∧ ∀ rs, readyState (this (polls rs w)) ≠ OPEN
          ∧ pending (polls rs w) = pending w
          ∧ calls (polls rs w) = calls w.
Proof.
  intros He Hs res w'.
  assert (includes [CLOSED; CONNECTING] (readyState (this w)) = true) as Hi
    by (by apply bool_decide_eq_true).
  assert (readyState (this w) ≠ OPEN) as Hno.
  { intros Ho. by rewrite Ho in Hi. }
  subst w'. unfold exec. rewrite gather_catch_eq, (poll_without_open res w He Hi). simpl.
  assert (execute (js_prop "messages" data) w = (w, Throw)) as Hex
    by (by rewrite execute_eq, Hi, He).
  split_and!; try done.
  - subst res. rewrite gather_then_eq. by destruct data.
  - intros Hle. lia.
  - by apply after_catch_quiet.
  - intros rs. by apply polls_without_open.
Qed.


(** ** Counting calls *)

Lemma count_calls_to k h k' a hs :
  NoDup hs →
  calls_to_count k h (calls_to k' a hs)
  = if bool_decide (k' = k ∧ h ∈ hs) then 1%nat else 0%nat.
Proof.
  unfold calls_to_count.
  induction 1 as [|x hs Hx Hn IH]; simpl.
  - case_bool_decide as Hd; [|done]. destruct Hd as [_ Hd]. by apply elem_of_nil in Hd.
  - rewrite filter_cons. simpl. destruct (decide (k' = k ∧ x = h)) as [Hc|Hc].
    + destruct Hc as [Hk Hh]. subst k' x. simpl. rewrite IH.
      rewrite (bool_decide_eq_false_2 (k = k ∧ h ∈ hs)) by (by intros [_ ?]).
      rewrite bool_decide_eq_true_2; [done|]. split; [done | apply list_elem_of_here].
    + rewrite IH. apply f_equal with (f := λ b : bool, if b then 1%nat else 0%nat).
      apply bool_decide_ext. split.
      * intros [-> Hin]. split; [done | by apply list_elem_of_further].
      * intros [-> Hin]. split; [done|].
        apply elem_of_cons in Hin as [->|]; [|done]. by destruct Hc.
Qed.

Lemma fired_app k h w cs :
  calls_to_count k h (calls w ++ cs) = (fired k h w + calls_to_count k h cs)%nat.
Proof. unfold fired, calls_to_count. by rewrite filter_app, length_app. Qed.

Lemma handlers_NoDup k w : Inv w → NoDup (handlers k w).
Proof.
  intros HI. unfold handlers.
  destruct (events (this w) !! k) as [hs|] eqn:E; simpl.
  - by eapply inv_sets. - apply NoDup_nil_2.
Qed.



Lemma count_app k h cs cs' :
  calls_to_count k h (cs ++ cs') = (calls_to_count k h cs + calls_to_count k h cs')%nat.
Proof. unfold calls_to_count. by rewrite filter_app, length_app. Qed.

Lemma closed_or_connecting_not_open (rs : ReadyState) :
  rs ∈ [CLOSED; CONNECTING] → rs ≠ OPEN.
Proof.
  intros Hs ->. apply (bool_decide_eq_true_2 _) in Hs. done.
Qed.

Lemma polls_closed_quiet fs w :
  readyState (this w) ≠ OPEN →
  Forall (λ r, transport_failure r = true) fs →
  fs ≠ [] ∨ readyState (this w) = CLOSED →
  readyState (this (polls fs w)) = CLOSED
  ∧ calls (polls fs w) = calls w
  ∧ events (this (polls fs w)) = events (this w).
Proof.
  revert w. induction fs as [|f fs IH]; intros w Hno Hf Hc.
  - by destruct Hc.
  - apply Forall_cons in Hf as [Hf1 Hf]. simpl. unfold exec.
    rewrite (gather_settled_failure f w Hf1). simpl.
    destruct (IH (after_catch w)) as (-> & -> & ->); try done.
    + by right.
    + split_and!; try done. by apply after_catch_quiet.
Qed.

Lemma pulls_calls rs w :
  events (this (pulls rs w)) = events (this w)
  ∧ calls (pulls rs w) = calls w ++ concat (map (delivered (handlers "message" w)) rs).
Proof.
  revert w. induction rs as [|r rs IH]; intros w.
  - simpl. by rewrite app_nil_r.
  - simpl. destruct (IH (top_level (pull_settled r) w)) as [-> ->].
    rewrite pull_settled_eq. unfold handlers.
    destruct r as [|st [data|]]; simpl; try by rewrite ?app_nil_r.
    destruct (events (this w) !! "message") as [hs|] eqn:E; simpl; rewrite E; simpl.
    + by rewrite <- app_assoc.
    + done.
Qed.

Lemma count_delivered h hs rs :
  NoDup hs → h ∈ hs →
  calls_to_count "message" h (concat (map (delivered hs) rs))
  = length (filter (λ r, transport_failure r = false) rs).
Proof.
  intros Hn Hin. induction rs as [|r rs IH]; [done|].
  simpl. rewrite count_app, IH, filter_cons.
  destruct r as [|st [data|]]; simpl; try done.
  rewrite count_calls_to by done. by rewrite bool_decide_eq_true_2.
Qed.

(** C4, as the code has it: a poll that brings a batch of N messages and is
    processed by the success branch calls no "message" handler itself; it
    issues N requests to [location&mode=pull], in batch order, the i-th with
    the serialised i-th message as body.  Each of these requests, when its
    response parses, calls every registered "message" handler once with the
    serialised response as [data]; the calls come in the order in which the
    requests settle, and a handler is called once per request whose response
    parses, so at most N times. *)
Theorem batch_is_relayed w res ms :
  reachable w →
  batch_of res = Some ms →
  poll_succeeds res w = true →
  let w1 := exec (gather_settled res) w in
  let hs := handlers "message" w in
  pending w1 = pending w ++ number (next_request w) (map (relay (location (this w))) ms)
  ∧ (∀ h, fired "message" h w1 = fired "message" h w)
  ∧ ∀ rs, calls (pulls rs w1) = calls w1 ++ concat (map (delivered hs) rs)
          ∧ ∀ h, h ∈ hs →
              fired "message" h (pulls rs w1)
              = (fired "message" h w1
                 + length (filter (λ r, transport_failure r = false) rs))%nat.
Proof.
  intros Hr Hb Hok w1 hs.
  pose proof (reachable_Inv w Hr) as HI.
  assert (w1 = relayed ms (after_open w) ∨ w1 = relayed ms (mark_open w)) as Hw1.
  { subst w1. unfold exec. rewrite (gather_settled_batch res ms w Hb).
    unfold poll_succeeds in Hok. rewrite gather_then_eq in Hok.
    destruct res as [|st [data|]]; try done. simpl in Hb.
    destruct data; try done. rewrite execute_eq in Hok.
    destruct (includes _ _); [|by right].
    destruct (events (this w) !! "open"); [by left | done]. }
  assert (handlers "message" w1 = hs ∧ location (this w1) = location (this w)) as [Hhs Hloc].
  { by destruct Hw1 as [-> | ->]. }
  split_and!.
  - by destruct Hw1 as [-> | ->].
  - intros h. destruct Hw1 as [-> | ->]; [|done].
    unfold fired at 1. simpl. rewrite fired_app.
    rewrite count_calls_to by (by apply handlers_NoDup).
    rewrite bool_decide_eq_false_2 by (by intros [? _]). lia.
  - intros rs. destruct (pulls_calls rs w1) as [He Hc]. rewrite Hhs in Hc.
    split; [done|]. intros h Hin.
    unfold fired at 1. rewrite Hc, fired_app. f_equal.
    apply count_delivered; [|done]. by apply handlers_NoDup.
Qed.

(** ** Calls go to the handlers registered when the callback runs *)

Lemma delivers_refl w : delivers_to_registered w w.
Proof. split; [done|]. exists []. by rewrite app_nil_r. Qed.

Lemma delivers_trans w1 w2 w3 :
  delivers_to_registered w1 w2 → delivers_to_registered w2 w3 →
  delivers_to_registered w1 w3.
Proof.
  intros [He1 (cs1 & Hc1 & Hf1)] [He2 (cs2 & Hc2 & Hf2)].
  split; [congruence|]. exists (cs1 ++ cs2). split.
  - by rewrite Hc2, Hc1, app_assoc.
  - apply Forall_app. split; [done|].
    eapply Forall_impl; [exact Hf2|]. intros c. unfold handlers. by rewrite He1.
Qed.

Lemma calls_to_registered k a w :
  Forall (λ c, call_handler c ∈ handlers (call_kind c) w) (calls_to k a (handlers k w)).
Proof. apply Forall_forall. intros c (h & -> & Hin)%list_elem_of_fmap. done. Qed.

Lemma delivers_silent w w' :
  events (this w') = events (this w) → calls w' = calls w →
  delivers_to_registered w w'.
Proof. intros He Hc. split; [done|]. exists []. by rewrite app_nil_r. Qed.

Lemma delivers_add_calls k a w :
  delivers_to_registered w (add_calls (calls_to k a (handlers k w)) w).
Proof. split; [done|]. eexists. split; [done|]. apply calls_to_registered. Qed.

Lemma delivers_after_open w : delivers_to_registered w (after_open w).
Proof. split; [done|]. eexists. split; [done|]. apply calls_to_registered. Qed.

Lemma delivers_after_catch w : delivers_to_registered w (after_catch w).
Proof.
  split; [done|]. eexists. split; [done|].
  case_bool_decide; [apply calls_to_registered | done].
Qed.

Lemma delivers_events_forEach k a w : delivers_to_registered w (events_forEach k a w).1.
Proof.
  rewrite events_forEach_eq. unfold handlers.
  destruct (events (this w) !! k) as [hs|] eqn:E; simpl; [|apply delivers_refl].
  pose proof (delivers_add_calls k a w) as Hd. unfold handlers in Hd.
  by rewrite E in Hd.
Qed.

Lemma delivers_execute m w : delivers_to_registered w (execute m w).1.
Proof.
  rewrite execute_eq.
  destruct (includes _ _); [destruct (events (this w) !! "open")|];
    destruct m as [[]|]; simpl;
    first [ apply delivers_refl
          | apply delivers_after_open
          | (by apply delivers_silent)
          | (eapply delivers_trans; [apply delivers_after_open | by apply delivers_silent]) ].
Qed.

Lemma delivers_gather_settled res w : delivers_to_registered w (gather_settled res w).1.
Proof.
  rewrite gather_settled_eq.
  assert (delivers_to_registered w (gather_then res w).1) as H1.
  { rewrite gather_then_eq.
    destruct res as [|st [[]|]]; simpl;
      first [apply delivers_refl | apply delivers_execute]. }
  destruct (gather_then res w) as [w1 [[]|]]; simpl in *; [done|].
  eapply delivers_trans; [exact H1 | apply delivers_after_catch].
Qed.

Lemma delivers_send_settled res w : delivers_to_registered w (send_settled res w).1.
Proof.
  rewrite send_settled_eq.
  destruct res as [|st [data|]]; simpl; try apply delivers_refl.
  assert (delivers_to_registered w
            (if truthy (js_prop "messages" data)
             then execute (js_prop "messages" data) w else (w, Normal ())).1) as H1.
  { destruct (truthy _); [apply delivers_execute | apply delivers_refl]. }
  destruct (if truthy (js_prop "messages" data) then _ else _) as [w1 [[]|]];
    simpl in *.
  - destruct data; try apply delivers_refl;
      (destruct (truthy _); [|done];
       eapply delivers_trans; [exact H1 | apply delivers_events_forEach]).
  - destruct data; first [apply delivers_refl | exact H1].
Qed.

Lemma delivers_pull_settled res w : delivers_to_registered w (pull_settled res w).1.
Proof.
  unfold pull_settled, mbind, JS_bind.
  destruct res as [|st [data|]]; simpl; try apply delivers_refl.
  apply delivers_events_forEach.
Qed.

Lemma delivers_top_level c w :
  delivers_to_registered w (c w).1 → delivers_to_registered w (top_level c w).
Proof. unfold top_level. by destruct (c w) as [w1 [[]|]]. Qed.

Lemma delivers_step w a :
  (∀ k h, a ≠ AddListener k h) → (∀ k h, a ≠ RemoveListener k h) →
  delivers_to_registered w (step w a).
Proof.
  intros Ha Hr. destruct a as [t|r res|k h|k h|m]; simpl.
  - case_bool_decide; [by apply delivers_silent | apply delivers_refl].
  - destruct (find_request r (pending w)) as [q|]; [|apply delivers_refl].
    eapply delivers_trans with (w2 := drop_request r w); [by apply delivers_silent|].
    apply delivers_top_level. destruct (chain q); simpl.
    + apply delivers_gather_settled.
    + apply delivers_pull_settled.
    + apply delivers_send_settled.
  - by destruct (Ha k h).
  - by destruct (Hr k h).
  - by apply delivers_silent.
Qed.

Lemma count_none k h cs :
  Forall (λ c, ¬ (call_kind c = k ∧ call_handler c = h)) cs →
  calls_to_count k h cs = 0%nat.
Proof.
  unfold calls_to_count. induction 1 as [|c cs Hc Hf IH]; [done|].
  rewrite filter_cons. by destruct (decide (call_kind c = k ∧ call_handler c = h)).
Qed.

Lemma delivers_keeps_unregistered w w' k h :
  delivers_to_registered w w' → h ∉ handlers k w →
  (h ∉ handlers k w') ∧ fired k h w' = fired k h w.
Proof.
  intros [He (cs & Hc & Hf)] Hout. split.
  - unfold handlers. rewrite He. exact Hout.
  - unfold fired. rewrite Hc, count_app.
    rewrite (count_none k h cs); [lia|].
    eapply Forall_impl; [exact Hf|].
    intros c Hin [<- <-]. by apply Hout.
Qed.

Lemma set_add_other h h' hs : h ≠ h' → h ∉ hs → h ∉ set_add h' hs.
Proof.
  intros Hne Hout. unfold set_add. case_bool_decide; [done|].
  intros [Hin|Hin%list_elem_of_singleton]%elem_of_app; done.
Qed.

Lemma step_keeps_unregistered w a k h :
  a ≠ AddListener k h → h ∉ handlers k w →
  (h ∉ handlers k (step w a)) ∧ fired k h (step w a) = fired k h w.
Proof.
  intros Ha Hout.
  destruct a as [t|r res|k' h'|k' h'|m];
    try (apply delivers_keeps_unregistered; [by apply delivers_step | done]).
  - simpl. unfold exec. rewrite addEventListener_eq. split; [|done].
    unfold handlers at 1. simpl.
    destruct (decide (k' = k)) as [->|Hk].
    + rewrite lookup_insert_eq. simpl. apply set_add_other; [|done]. congruence.
    + by rewrite lookup_insert_ne.
  - simpl. unfold exec. rewrite removeEventListener_eq.
    destruct (events (this w) !! k') as [hs|] eqn:E; [|done].
    split; [|done]. unfold handlers at 1. simpl.
    destruct (decide (k' = k)) as [->|Hk].
    + rewrite lookup_insert_eq. simpl. unfold set_delete.
      intros [_ Hin]%list_elem_of_filter. apply Hout. unfold handlers. by rewrite E.
    + by rewrite lookup_insert_ne.
Qed.

Lemma run_keeps_unregistered acts w k h :
  Forall (λ a, a ≠ AddListener k h) acts → h ∉ handlers k w →
  (h ∉ handlers k (run acts w)) ∧ fired k h (run acts w) = fired k h w.
Proof.
  revert w. induction acts as [|a acts IH]; intros w Ha Hout; [done|].
  apply Forall_cons in Ha as [Ha1 Ha]. simpl.
  destruct (step_keeps_unregistered w a k h Ha1 Hout) as [Hout1 Hf1].
  destruct (IH (step w a) Ha Hout1) as [Hout2 Hf2].
  split; [done | congruence].
Qed.

Lemma removed_is_unregistered w k h :
  (h ∉ handlers k (step w (RemoveListener k h)))
  ∧ calls (step w (RemoveListener k h)) = calls w.
Proof.
  simpl. unfold exec. rewrite removeEventListener_eq. unfold handlers.
  destruct (events (this w) !! k) as [hs|] eqn:E; simpl.
  - rewrite lookup_insert_eq. simpl. split; [|done].
    unfold set_delete. by intros [? _]%list_elem_of_filter.
  - rewrite E. simpl. split; [apply not_elem_of_nil | done].
Qed.

(** C9: once [removeEventListener(k, h)] has been called, and until [h] is
    registered under [k] again, no callback calls [h] for an event of kind
    [k]: whatever happens between the removal and the moment a response is
    processed, and in processing that response, the number of calls of [h]
    for [k] stays what it was at the removal.  This holds in particular for
    the response of a poll that was in flight when [h] was removed. *)
Theorem removed_handler_is_not_called w k h acts r res :
  Forall (λ a, a ≠ AddListener k h) acts →
  let w1 := step w (RemoveListener k h) in
  let w2 := run acts w1 in
  let w3 := step w2 (Settle r res) in
  (h ∉ handlers k w2)
  ∧ fired k h w3 = fired k h w2
  ∧ fired k h w3 = fired k h w.
Proof.
  intros Ha w1 w2 w3.
  destruct (removed_is_unregistered w k h) as [H1 Hc1].
  destruct (run_keeps_unregistered acts w1 k h Ha H1) as [H2 Hf2].
  destruct (step_keeps_unregistered w2 (Settle r res) k h) as [H3 Hf3]; [done | done |].
  split_and!; [done | done |].
  subst w3 w2 w1. rewrite Hf3, Hf2. unfold fired. by rewrite Hc1.
Qed.

Lemma outage_calls w fs r ms :
  readyState (this w) = OPEN →
  fs ≠ [] → Forall (λ r, transport_failure r = true) fs →
  batch_of r = Some ms →
  calls (polls (fs ++ [r]) w)
  = calls w ++ calls_to "close" ANull (handlers "close" w)
            ++ calls_to "open" ANull (handlers "open" w).
Proof.
  intros Ho Hne Hf Hb. rewrite polls_snoc.
  destruct fs as [|f fs]; [done|].
  apply Forall_cons in Hf as [Hf1 Hf]. simpl. unfold exec at 2.
  rewrite (gather_settled_failure f w Hf1). simpl.
  destruct (polls_closed_quiet fs (after_catch w)) as (Hs & Hc & He);
    [done | done | by right |].
  unfold exec. rewrite (gather_settled_batch r ms _ Hb), Hs. simpl.
  rewrite He. simpl.
  destruct (events (this w) !! "open") as [hs|] eqn:E; simpl.
  - unfold handlers at 1. rewrite He. simpl. rewrite Hc. simpl.
    rewrite Ho. simpl.
    unfold handlers at 3. rewrite E. simpl. by rewrite <- app_assoc.
  - rewrite Hs, Hc. simpl. rewrite Ho. simpl.
    unfold handlers. rewrite E. simpl. by rewrite !app_nil_r.
Qed.

(** C3, as the code has it: a poll that rejects or whose body is not JSON
    (the HTTP status is not looked at) calls every registered "close"
    handler exactly once when it settles in state OPEN and none when it
    settles in state CLOSED or CONNECTING, and leaves the state CLOSED.
    When a poll processed by the success branch is followed by one or more
    such failures and then by a poll that brings a batch, the calls made
    after the first poll are: every registered "close" handler once, then
    every registered "open" handler once. *)
Theorem close_fires_once_per_outage w h :
  reachable w →
  (∀ res, transport_failure res = true →
     let w' := exec (gather_settled res) w in
     readyState (this w') = CLOSED
     ∧ (readyState (this w) = OPEN →
        fired "close" h w'
        = (fired "close" h w + if bool_decide (h ∈ handlers "close" w) then 1 else 0)%nat)
     ∧ (readyState (this w) ∈ [CLOSED; CONNECTING] →
        fired "close" h w' = fired "close" h w))
  ∧ (∀ r0 fs r ms, poll_succeeds r0 w = true →
     fs ≠ [] → Forall (λ r, transport_failure r = true) fs →
     batch_of r = Some ms →
     let w1 := exec (gather_settled r0) w in
     let w' := polls (fs ++ [r]) w1 in
     calls w' = calls w1 ++ calls_to "close" ANull (handlers "close" w)
                         ++ calls_to "open" ANull (handlers "open" w)
     ∧ fired "close" h w'
       = (fired "close" h w1 + if bool_decide (h ∈ handlers "close" w) then 1 else 0)%nat
     ∧ fired "open" h w'
       = (fired "open" h w1 + if bool_decide (h ∈ handlers "open" w) then 1 else 0)%nat).
Proof.
  intros Hr. pose proof (reachable_Inv w Hr) as HI.
  assert (∀ k k', calls_to_count k h (calls_to k' ANull (handlers k' w))
                  = if bool_decide (k' = k ∧ h ∈ handlers k' w) then 1%nat else 0%nat)
    as Hcount.
  { intros k k'. apply count_calls_to. by apply handlers_NoDup. }
  split.
  - intros res Hf w'. subst w'. unfold exec. rewrite (gather_settled_failure res w Hf).
    simpl. split_and!; [done | |].
    + intros Ho. unfold fired at 1. simpl. rewrite Ho. simpl.
      rewrite fired_app, Hcount. f_equal.
      apply f_equal with (f := λ b : bool, if b then 1%nat else 0%nat).
      apply bool_decide_ext. split; [by intros [_ ?] | done].
    + intros Hs. unfold fired. rewrite after_catch_quiet; [done|].
      by apply closed_or_connecting_not_open.
  - intros r0 fs r ms Hok Hne Hf Hb w1 w'.
    assert (readyState (this w1) = OPEN) as Ho by (by apply poll_succeeds_open).
    assert (∀ k, handlers k w1 = handlers k w) as Hh.
    { intros k. unfold handlers. subst w1. unfold exec.
      by destruct (delivers_gather_settled r0 w) as [-> _]. }
    assert (calls w' = calls w1 ++ calls_to "close" ANull (handlers "close" w)
                         ++ calls_to "open" ANull (handlers "open" w)) as Hcalls.
    { subst w'. rewrite (outage_calls w1 fs r ms Ho Hne Hf Hb). by rewrite !Hh. }
    split_and!; [done | |].
    + unfold fired at 1. rewrite Hcalls, app_assoc, count_app, fired_app, !Hcount.
      repeat case_bool_decide; try lia; exfalso; intuition congruence.
    + unfold fired at 1. rewrite Hcalls, app_assoc, count_app, fired_app, !Hcount.
      repeat case_bool_decide; try lia; exfalso; intuition congruence.
Qed.

(** ** Where the retry interval changes *)









Lemma top_level_timers c w : timers (top_level c w) = timers (c w).1.
Proof. unfold top_level. by destruct (c w) as [w1 [[]|]]. Qed.


(** ** What the code does where the specification asks for more *)

(** [send] attaches no [catch].  When its request rejects or the body is
    not JSON the chain ends rejected: no handler is called, the state, the
    retry interval and the timer stay as they are, and the rejection is left
    unhandled. *)
Lemma send_failure_is_not_handled w res :
  transport_failure res = true →
  top_level (send_settled res) w =
    mkBrowser (this w) (timers w) (next_timer w) (peak_timers w)
      (pending w) (next_request w) (calls w) (S (unhandled w)).
Proof. intros Hf. by destruct res as [|st [data|]]. Qed.

(** [removeEventListener] reads [this.events[eventType]] without the
    guard that [addEventListener] has; on a kind without an entry it throws
    and changes nothing. *)
Lemma removeEventListener_unknown_kind_throws w k h :
  events (this w) !! k = None →
  removeEventListener k h w = (w, Throw).
Proof. intros He. by rewrite removeEventListener_eq, He. Qed.

Lemma set_delete_absent h hs : h ∉ hs → set_delete h hs = hs.
Proof.
  unfold set_delete. induction hs as [|x hs IH]; intros Hout; [done|].
  apply not_elem_of_cons in Hout as [Hne Hout].
  rewrite filter_cons. destruct (decide (x ≠ h)) as [_|Hc].
  - by rewrite IH.
  - destruct Hc. congruence.
Qed.

(** Where the kind has an entry, exactly [h] leaves it and nothing else
    changes; a handler that is not in the set is no error. *)
Lemma removeEventListener_registered_kind w k h hs :
  events (this w) !! k = Some hs →
  ∃ w', removeEventListener k h w = (w', Normal ())
        ∧ (∀ h', h' ∈ handlers k w' ↔ h' ∈ hs ∧ h' ≠ h)
        ∧ (∀ k', k' ≠ k → handlers k' w' = handlers k' w)
        ∧ (h ∉ hs → this w' = this w)
        ∧ calls w' = calls w ∧ timers w' = timers w ∧ pending w' = pending w.
Proof.
  intros He. rewrite removeEventListener_eq, He. eexists. split; [done|].
  unfold handlers. simpl. split_and!; try done.
  - intros h'. rewrite lookup_insert_eq. simpl. unfold set_delete.
    rewrite list_elem_of_filter. tauto.
  - intros k' Hk. by rewrite lookup_insert_ne.
  - intros Hout. destruct w as [[loc ev rs ot to iv] tm nt pk pe nr cs un].
    simpl in *. unfold set_events. simpl. f_equal.
    rewrite set_delete_absent by done. by apply insert_id.
Qed.
End Properties.

(** * The properties at work on the sample channel *)

Section Examples.
Local Existing Instance sample_runtime.
Local Open Scope nat_scope.

(** A sample state is reached by the actions that define it. *)
Ltac reached_by acts := exists sample_location, acts; vm_compute; reflexivity.



(** C3 as stated fails for a poll answered with status 500, a failing poll
    for the specification.  When the body carries a batch and the channel
    is OPEN with "close" handler 3 registered, the code runs the success
    branch: handler 3 is not called and the state stays OPEN.  When the body
    is a JSON object without a batch and the channel is CLOSED, the code
    calls "open" handler 1 and then "close" handler 3. *)
Lemma non_2xx_poll_is_not_a_failure :
  let w := sample_polling in
  let res := batch_response 500 [] in
  let w' := run [Settle 1 NetworkError; Tick 3] sample_polling in
  let res' := HttpResponse 500 (Some (JObj [("error", JStr "down")])) in
  spec_poll_failure res = true
  ∧ find_request 1 (pending w) = Some (mkRequest sample_location "get" None GatherChain)
  ∧ readyState (this w) = OPEN
  ∧ handlers "close" w = [3]
  ∧ fired "close" 3 (step w (Settle 1 res)) = fired "close" 3 w
  ∧ fired "close" 3 (step w (Settle 1 res)) ≠ S (fired "close" 3 w)
  ∧ readyState (this (step w (Settle 1 res))) = OPEN
  ∧ spec_poll_failure res' = true
  ∧ find_request 2 (pending w') = Some (mkRequest sample_location "get" None GatherChain)
  ∧ readyState (this w') = CLOSED
  ∧ fired "close" 3 (step w' (Settle 2 res')) = S (fired "close" 3 w')
  ∧ fired "close" 3 (step w' (Settle 2 res')) ≠ fired "close" 3 w'.
Proof. vm_compute. split_and!; try reflexivity; discriminate. Qed.

(** A first poll opens the sample channel; an outage of two failing polls
    and a poll with a batch follow: "close" handler 3 is called once, and
    "open" handler 1 once for the first poll and once after the outage. *)
Lemma close_fires_once_per_outage_witness :
  reachable sample_registered
  ∧ poll_succeeds (batch_response 200 []) sample_registered = true
  ∧ fired "close" 3
      (polls ([NetworkError; HttpResponse 502 None] ++ [batch_response 200 []])
         (exec (gather_settled (batch_response 200 [])) sample_registered))
    = 1
  ∧ fired "open" 1
      (polls ([NetworkError; HttpResponse 502 None] ++ [batch_response 200 []])
         (exec (gather_settled (batch_response 200 [])) sample_registered))
    = 2.
Proof.
  assert (reachable sample_registered) as R
    by reached_by [AddListener "open" 1; AddListener "message" 2;
                   AddListener "close" 3].
  assert (poll_succeeds (batch_response 200 []) sample_registered = true) as Hok
    by reflexivity.
  destruct (close_fires_once_per_outage sample_registered 3 R) as [_ H3].
  destruct (H3 (batch_response 200 []) [NetworkError; HttpResponse 502 None]
              (batch_response 200 []) [] Hok) as (_ & Hc & _);
    [discriminate | repeat constructor | reflexivity |].
  destruct (close_fires_once_per_outage sample_registered 1 R) as [_ H1].
  destruct (H1 (batch_response 200 []) [NetworkError; HttpResponse 502 None]
              (batch_response 200 []) [] Hok) as (_ & _ & Ho);
    [discriminate | repeat constructor | reflexivity |].
  split_and!; [exact R | exact Hok | |].
  - rewrite Hc. vm_compute. reflexivity.
  - rewrite Ho. vm_compute. reflexivity.
Defined.

(** C4 as stated fails: a batch of two messages, "a" then "b", is followed
    by two relayed requests, 1 and 2.  When request 2 settles first and
    request 1 fails, "message" handler 2 is called once, not twice; when
    both responses parse, the calls come in the order of the responses, and
    what is passed is the serialised response, not the message. *)
Lemma relayed_batch_counterexample :
  let poll := batch_response 200 [JStr "a"; JStr "b"] in
  let second := Settle 2 (HttpResponse 200 (Some (JStr "reply to b"))) in
  let w1 := run [Settle 0 poll; second; Settle 1 NetworkError] sample_registered in
  let w2 := run [Settle 0 poll; second;
                 Settle 1 (HttpResponse 200 (Some (JStr "reply to a")))]
              sample_registered in
  batch_of poll = Some [JStr "a"; JStr "b"]
  ∧ pending w1 = [] ∧ fired "message" 2 w1 = 1 ∧ fired "message" 2 w1 ≠ 2
  ∧ pending w2 = []
  ∧ filter (λ c, call_kind c = "message") (calls w2)
    = [mkCall "message" 2 (AData "reply to b"); mkCall "message" 2 (AData "reply to a")]
  ∧ filter (λ c, call_kind c = "message") (calls w2)
    ≠ [mkCall "message" 2 (AData (JSON_stringify (JStr "a")));
       mkCall "message" 2 (AData (JSON_stringify (JStr "b")))].
Proof. vm_compute. split_and!; try reflexivity; discriminate. Qed.

(** A batch of two on the sample channel: two relayed requests, and one call
    of "message" handler 2 for the one response that parses. *)
Lemma batch_is_relayed_witness :
  reachable sample_registered
  ∧ batch_of (batch_response 200 [JStr "a"; JStr "b"]) = Some [JStr "a"; JStr "b"]
  ∧ poll_succeeds (batch_response 200 [JStr "a"; JStr "b"]) sample_registered = true
  ∧ pending (exec (gather_settled (batch_response 200 [JStr "a"; JStr "b"]))
               sample_registered)
    = pending sample_registered
      ++ number (next_request sample_registered)
           (map (relay (location (this sample_registered))) [JStr "a"; JStr "b"]).
Proof.
  assert (reachable sample_registered) as R
    by reached_by [AddListener "open" 1; AddListener "message" 2;
                   AddListener "close" 3].
  split_and!; [exact R | reflexivity | reflexivity |].
  exact (proj1 (batch_is_relayed sample_registered
                  (batch_response 200 [JStr "a"; JStr "b"]) [JStr "a"; JStr "b"]
                  R eq_refl eq_refl)).
Defined.

(** C5: the OPEN sample channel with the request of a [send] in flight and
    "close" handler 3 registered.  When that request fails, the channel is
    left exactly as it was, no handler is called, the timer is not re-armed
    and one more rejection is unhandled; the same failure of a poll (the
    sibling chain with a [catch]) calls handler 3 and re-arms at 4000. *)
Theorem send_failure_on_open_channel :
  let w := sample_sending in
  let w' := step w (Settle 1 NetworkError) in
  chain <$> find_request 1 (pending w) = Some SendChain
  ∧ readyState (this w) = OPEN
  ∧ handlers "close" w = [3]
  ∧ this w' = this w
  ∧ timers w' = timers w
  ∧ calls w' = calls w
  ∧ unhandled w' = S (unhandled w)
  ∧ fired "close" 3 (step sample_polling (Settle 1 NetworkError))
    = S (fired "close" 3 sample_polling)
  ∧ scheduled (step sample_polling (Settle 1 NetworkError)) = Some 4000%Z.
Proof. vm_compute. split_and!; reflexivity. Qed.

(** C6: on the channel just constructed no kind has an entry, and
    [removeEventListener] throws instead of doing nothing. *)
Theorem removeEventListener_on_new_channel_throws :
  removeEventListener "message" 2 sample_new = (sample_new, Throw).
Proof. by apply removeEventListener_unknown_kind_throws. Qed.



(** One live timer on the sample channel after an outage. *)
Lemma one_poll_timer_witness :
  reachable sample_closed_sending
  ∧ (size (timers sample_closed_sending) ≤ 1)
  ∧ (peak_timers sample_closed_sending ≤ 1).
Proof.
  assert (reachable sample_closed_sending) as R
    by reached_by [AddListener "open" 1; AddListener "message" 2;
                   AddListener "close" 3; Settle 0 (batch_response 200 []);
                   Tick 2; Settle 1 NetworkError; Send "update"].
  split; [exact R|].
  destruct (one_poll_timer sample_closed_sending R) as (H1 & H2 & _).
  split; [exact H1 | exact H2].
Defined.

(** "close" handler 3 is removed while poll 1 is in flight; a [send] is
    issued; poll 1 then fails on the OPEN channel: handler 3 is not called. *)
Lemma removed_handler_is_not_called_witness :
  Forall (λ a, a ≠ AddListener "close" 3) [Send "update"]
  ∧ fired "close" 3
      (step (run [Send "update"] (step sample_polling (RemoveListener "close" 3)))
         (Settle 1 NetworkError))
    = fired "close" 3 sample_polling.
Proof.
  assert (Forall (λ a, a ≠ AddListener "close" 3) [Send "update"]) as Hf
    by (repeat constructor; discriminate).
  split; [exact Hf|].
  exact (proj2 (proj2 (removed_handler_is_not_called sample_polling "close" 3
                         [Send "update"] 1 NetworkError Hf))).
Defined.

(** The channel just constructed has no handlers; its first poll brings a
    batch and is handled as a failure: CLOSED, interval 4000. *)
Lemma poll_without_open_handlers_fails_witness :
  events (this sample_new) !! "open" = None
  ∧ readyState (this sample_new) ∈ [CLOSED; CONNECTING]
  ∧ readyState (this (exec (gather_settled (batch_response 200 [JStr "a"])) sample_new))
    = CLOSED
  ∧ timeout (this (exec (gather_settled (batch_response 200 [JStr "a"])) sample_new))
    = 4000%Z.
Proof.
  assert (events (this sample_new) !! "open" = None) as He by reflexivity.
  assert (readyState (this sample_new) ∈ [CLOSED; CONNECTING]) as Hs
    by (vm_compute; repeat constructor).
  destruct (poll_without_open_handlers_fails sample_new 200
              (JObj [("messages", JArr [JStr "a"])]) He Hs)
    as (_ & _ & _ & Hc & Ht & _).
  split_and!; [exact He | exact Hs | exact Hc |].
  unfold batch_response. rewrite Ht. reflexivity.
Defined.

End Examples.

(** * More properties of the channel *)

Section Blocks.
Context `{Runtime}.

(** Whatever is kept by each block of the callbacks and by the three calls
    from outside is kept by every turn of the event loop. *)
Variable P : Browser → Prop.
Hypothesis P_open : ∀ w, P w →
  includes [CLOSED; CONNECTING] (readyState (this w)) = true →
  is_Some (events (this w) !! "open") → P (after_open w).
Hypothesis P_mark : ∀ w, P w →
  includes [CLOSED; CONNECTING] (readyState (this w)) = false → P (mark_open w).
Hypothesis P_catch : ∀ w, P w → P (after_catch w).
Hypothesis P_relay : ∀ w ms, P w → P (relayed ms w).
Hypothesis P_message : ∀ w d, P w →
  P (add_calls (calls_to "message" (AData d) (handlers "message" w)) w).
Hypothesis P_drop : ∀ w r, P w → P (drop_request r w).
Hypothesis P_rejected : ∀ w, P w → P (rejected w).
Hypothesis P_gather : ∀ w, P w → P (exec gather w).
Hypothesis P_send : ∀ w m, P w → P (exec (send m) w).
Hypothesis P_add : ∀ w k h, P w → P (exec (addEventListener k h) w).
Hypothesis P_remove : ∀ w k h, P w → P (exec (removeEventListener k h) w).

Lemma execute_blocks m w : P w → P (execute m w).1.
Proof.
  intros HP. rewrite execute_eq.
  destruct (includes _ _) eqn:Hi.
  - destruct (events (this w) !! "open") as [hs|] eqn:E; [|done].
    assert (P (after_open w)) by (apply P_open; eauto).
    destruct m as [[]|]; simpl; try done. by apply P_relay.
  - assert (P (mark_open w)) by (by apply P_mark).
    destruct m as [[]|]; simpl; try done. by apply P_relay.
Qed.

Lemma events_forEach_message_blocks d w :
  P w → P (events_forEach "message" (AData d) w).1.
Proof.
  intros HP. rewrite events_forEach_eq.
  pose proof (P_message w d HP) as Hm. unfold handlers in Hm.
  by destruct (events (this w) !! "message").
Qed.

Lemma chain_blocks k res w : P w → P (top_level (chain_settled k res) w).
Proof.
  intros HP.
  assert (P (chain_settled k res w).1) as H1.
  { destruct k; simpl.
    - rewrite gather_settled_eq.
      assert (P (gather_then res w).1) as H2.
      { rewrite gather_then_eq.
        destruct res as [|st [[]|]]; simpl; try done; by apply execute_blocks. }
      destruct (gather_then res w) as [w1 [[]|]]; simpl in *; [done|].
      by apply P_catch.
    - unfold pull_settled, mbind, JS_bind.
      destruct res as [|st [data|]]; simpl; try done.
      by apply events_forEach_message_blocks.
    - rewrite send_settled_eq.
      destruct res as [|st [data|]]; simpl; try done.
      assert (P (if truthy (js_prop "messages" data)
                 then execute (js_prop "messages" data) w else (w, Normal ())).1) as H2.
      { destruct (truthy _); [by apply execute_blocks | done]. }
      destruct (if truthy (js_prop "messages" data) then _ else _)
        as [w1 [[]|]]; simpl in *.
      + destruct data; try done;
          (destruct (truthy _); [by apply events_forEach_message_blocks | done]).
      + by destruct data. }
  unfold top_level. destruct (chain_settled k res w) as [w1 [[]|]]; simpl in *; [done|].
  by apply P_rejected.
Qed.

Lemma step_blocks w a : P w → P (step w a).
Proof.
  intros HP. destruct a as [t|r res|k h|k h|m]; simpl.
  - case_bool_decide; [by apply P_gather | done].
  - destruct (find_request r (pending w)) as [q|]; [|done].
    apply chain_blocks. by apply P_drop.
  - by apply P_add.
  - by apply P_remove.
  - by apply P_send.
Qed.

Lemma run_blocks acts w : P w → P (run acts w).
Proof.
  revert w. induction acts as [|a acts IH]; intros w HP; [done|].
  simpl. apply IH. by apply step_blocks.
Qed.

End Blocks.

Section MoreProperties.
Context `{Runtime}.

Lemma Forall_number (Q : Request → Prop) n qs :
  Forall Q qs → Forall (λ p, Q p.2) (number n qs).
Proof.
  intros Hq. revert n. induction Hq as [|q qs Hq1 Hq IH]; intros n; simpl; [done|].
  constructor; [done | apply IH].
Qed.



(** X3: [readyState] is never CLOSING, and once it has left CONNECTING no
    turn of the event loop brings it back. *)
Theorem readyState_never_closing_never_back loc acts :
  readyState (this (run acts (new_HTTPSSocket loc))) ≠ CLOSING
  ∧ ∀ w a, readyState (this w) ≠ CONNECTING → readyState (this (step w a)) ≠ CONNECTING.
Proof.
  split.
  - apply (inv_state _ (run_Inv acts _ (new_HTTPSSocket_Inv loc))).
  - intros w a. apply (step_blocks (λ w, readyState (this w) ≠ CONNECTING));
      try done.
    + intros w0 k h Hs. unfold exec. by rewrite addEventListener_eq.
    + intros w0 k h Hs. unfold exec. rewrite removeEventListener_eq.
      by destruct (events (this w0) !! k).
Qed.

(** X4: the retry interval is 2000, 4000 or 5000 in every state the channel
    reaches, and the live timer runs with that period. *)
Theorem retry_interval_values loc acts :
  let w := run acts (new_HTTPSSocket loc) in
  retry_value (timeout (this w)) ∧ scheduled w = Some (timeout (this w)).
Proof.
  intros w. split.
  - subst w.
    assert (openTimeout (this (run acts (new_HTTPSSocket loc))) = 2000
            ∧ retry_value (timeout (this (run acts (new_HTTPSSocket loc))))) as [_ Hv];
      [|done].
    apply (run_blocks (λ w, openTimeout (this w) = 2000 ∧ retry_value (timeout (this w))));
      try done.
    + intros w0 [Ho Hv] _ _. simpl. split; [done|]. rewrite Ho. by left.
    + intros w0 [Ho Hv]. simpl. split; [done|]. unfold retry_value in *. lia.
    + intros w0 k h Hs. unfold exec. by rewrite addEventListener_eq.
    + intros w0 k h Hs. unfold exec. rewrite removeEventListener_eq.
      by destruct (events (this w0) !! k).
    + split; [done | by left].
  - apply Inv_scheduled, run_Inv, new_HTTPSSocket_Inv.
Qed.

(** X5: the channel is OPEN only if the table has an entry for "open": no
    turn of the event loop, poll or reply to [send], opens a channel on
    which no "open" handler was ever registered; and an entry once made
    stays. *)
Theorem open_needs_open_entry loc acts :
  let w := run acts (new_HTTPSSocket loc) in
  (readyState (this w) = OPEN → is_Some (events (this w) !! "open"))
  ∧ ∀ k a, is_Some (events (this w) !! k) → is_Some (events (this (step w a)) !! k).
Proof.
  intros w. split.
  - subst w.
    assert (readyState (this (run acts (new_HTTPSSocket loc))) ≠ CLOSING
            ∧ (readyState (this (run acts (new_HTTPSSocket loc))) = OPEN
               → is_Some (events (this (run acts (new_HTTPSSocket loc))) !! "open")))
      as [_ Ho]; [|done].
    apply (run_blocks (λ w, readyState (this w) ≠ CLOSING
                            ∧ (readyState (this w) = OPEN
                               → is_Some (events (this w) !! "open")))); try done.
    + intros w0 [Hc Ho] Hi. split; [done|]. simpl. intros _. apply Ho.
      destruct (readyState (this w0)); done.
    + intros w0 k h [Hc Ho]. unfold exec. rewrite addEventListener_eq. simpl.
      split; [done|]. intros Hs. destruct (decide (k = "open")) as [->|Hk].
      * by rewrite lookup_insert_eq.
      * rewrite lookup_insert_ne by done. by apply Ho.
    + intros w0 k h [Hc Ho]. unfold exec. rewrite removeEventListener_eq.
      destruct (events (this w0) !! k) as [hs|] eqn:E; [|done]. simpl.
      split; [done|]. intros Hs. destruct (decide (k = "open")) as [->|Hk].
      * by rewrite lookup_insert_eq.
      * rewrite lookup_insert_ne by done. by apply Ho.
  - intros k a Hk. revert Hk.
    apply (step_blocks (λ w, is_Some (events (this w) !! k))); try done.
    + intros w0 k' h Hs. unfold exec. rewrite addEventListener_eq. simpl.
      destruct (decide (k' = k)) as [->|Hne].
      * by rewrite lookup_insert_eq.
      * by rewrite lookup_insert_ne.
    + intros w0 k' h Hs. unfold exec. rewrite removeEventListener_eq.
      destruct (events (this w0) !! k') as [hs|] eqn:E; [|done]. simpl.
      destruct (decide (k' = k)) as [->|Hne].
      * by rewrite lookup_insert_eq.
      * by rewrite lookup_insert_ne.
Qed.

(** X6: the location given to the constructor never changes, and every
    request the channel has in flight is one of three: GET of the location
    without a body, or POST with a body to the location followed by
    "&mode=pull" or by "&mode=push". *)
Theorem requests_target_location loc acts :
  let w := run acts (new_HTTPSSocket loc) in
  location (this w) = loc
  ∧ Forall (λ p, channel_request loc p.2) (pending w).
Proof.
  apply (run_blocks (λ w, location (this w) = loc
                          ∧ Forall (λ p, channel_request loc p.2) (pending w)));
    try done.
  - intros w ms [Hl Hp]. split; [done|]. simpl.
    apply Forall_app. split; [done|]. apply Forall_number.
    apply Forall_forall. intros q (m & -> & _)%list_elem_of_fmap.
    right. left. rewrite Hl. by eexists.
  - intros w r [Hl Hp]. split; [done|]. simpl.
    apply Forall_forall. intros p [_ Hin]%list_elem_of_filter.
    by apply (proj1 (Forall_forall _ _) Hp).
  - intros w [Hl Hp]. split; [done|]. simpl.
    apply Forall_app. split; [done|]. constructor; [|done]. left. by rewrite Hl.
  - intros w m [Hl Hp]. split; [done|]. simpl.
    apply Forall_app. split; [done|]. constructor; [|done].
    right. right. rewrite Hl. by eexists.
  - intros w k h Hs. unfold exec. by rewrite addEventListener_eq.
  - intros w k h Hs. unfold exec. rewrite removeEventListener_eq.
    by destruct (events (this w) !! k).
  - split; [done|]. simpl. constructor; [|done]. by left.
Qed.

(** X9: every call the channel ever makes is [h(null)] to a handler of
    "open" or "close" or [h({ data })] to a handler of "message"; a handler
    registered under any other kind is never called. *)
Theorem calls_are_open_close_message loc acts :
  let w := run acts (new_HTTPSSocket loc) in
  Forall channel_call (calls w)
  ∧ ∀ k h, k ≠ "open" → k ≠ "close" → k ≠ "message" → fired k h w = 0%nat.
Proof.
  intros w.
  assert (Forall channel_call (calls w)) as Hc.
  { subst w. apply (run_blocks (λ w, Forall channel_call (calls w))); try done.
    - intros w Hw _ _. simpl. apply Forall_app. split; [done|].
      apply Forall_forall. intros c (h & -> & _)%list_elem_of_fmap. by left.
    - intros w Hw. simpl. apply Forall_app. split; [done|].
      case_bool_decide; [|done].
      apply Forall_forall. intros c (h & -> & _)%list_elem_of_fmap. right. by left.
    - intros w d Hw. simpl. apply Forall_app. split; [done|].
      apply Forall_forall. intros c (h & -> & _)%list_elem_of_fmap.
      right. right. split; [done | by eexists].
    - intros w k h Hs. unfold exec. by rewrite addEventListener_eq.
    - intros w k h Hs. unfold exec. rewrite removeEventListener_eq.
      by destruct (events (this w) !! k). }
  split; [done|].
  intros k h Ho Hcl Hm. unfold fired. apply count_none.
  eapply Forall_impl; [exact Hc|].
  intros c [[Hk _]|[[Hk _]|[Hk _]]] [<- _]; congruence.
Qed.


Lemma top_level_eq c w :
  top_level c w = match c w with
                  | (w', Normal _) => w'
                  | (w', Throw) => rejected w'
                  end.
Proof. reflexivity. Qed.

(** X7: the chain of a poll always ends fulfilled: whatever the response
    and whatever the state, the [catch] of [gather] handles it, and a poll
    that settles leaves no unhandled rejection. *)
Theorem poll_is_always_handled w res :
  (∃ w', gather_settled res w = (w', Normal ()))
  ∧ unhandled (exec (gather_settled res) w) = unhandled w
  ∧ ∀ r q, find_request r (pending w) = Some q → chain q = GatherChain →
      unhandled (step w (Settle r res)) = unhandled w.
Proof.
  assert (∀ w0, (∃ w', gather_settled res w0 = (w', Normal ()))
                ∧ unhandled (gather_settled res w0).1 = unhandled w0) as Hg.
  { intros w0. rewrite gather_settled_eq.
    assert (unhandled (gather_then res w0).1 = unhandled w0) as Hu.
    { rewrite gather_then_eq. destruct res as [|st [[]|]]; try done;
        rewrite execute_eq;
        (destruct (includes _ _); [destruct (events (this w0) !! "open")|]);
        try done;
        match goal with |- context [js_prop ?k ?d] => destruct (js_prop k d) as [[]|] end;
        done. }
    destruct (gather_then res w0) as [w1 [[]|]]; simpl in *; split; eauto. }
  split_and!; try apply Hg.
  intros r q Hq Hc. simpl. rewrite Hq, Hc. simpl.
  destruct (Hg (drop_request r w)) as [[w' Hw'] Hu].
  rewrite top_level_eq, Hw'. rewrite Hw' in Hu. done.
Qed.

(** X8: the response of a relayed request, whatever it is, changes neither
    the state of the connection, nor the retry interval, nor the timer, nor
    the requests in flight; it calls the "message" handlers, each once with
    the serialised response, when the response parses and the table has an
    entry for "message", and is an unhandled rejection otherwise. *)
Theorem relay_response_only_delivers w res :
  let w' := top_level (pull_settled res) w in
  this w' = this w ∧ timers w' = timers w ∧ pending w' = pending w
  ∧ ((transport_failure res = false ∧ is_Some (events (this w) !! "message")
      ∧ calls w' = calls w ++ delivered (handlers "message" w) res
      ∧ unhandled w' = unhandled w)
     ∨ ((transport_failure res = true ∨ events (this w) !! "message" = None)
        ∧ calls w' = calls w
        ∧ unhandled w' = S (unhandled w))).
Proof.
  intros w'. subst w'. rewrite pull_settled_eq. unfold handlers.
  destruct res as [|st [data|]]; simpl.
  - split_and!; try done. right. eauto.
  - destruct (events (this w) !! "message") as [hs|] eqn:E; simpl.
    + split_and!; try done. left. eauto.
    + split_and!; try done. right. eauto.
  - split_and!; try done. right. eauto.
Qed.

(** X10: a poll whose body parses to something other than [null] but
    carries no array under "messages".  On a channel that is CLOSED or
    CONNECTING and has an "open" entry the open transition runs first and
    the failure branch after it: the "open" handlers are called, then the
    "close" handlers, the state ends CLOSED, the interval is 4000 whatever
    it was, and nothing is relayed.  On an OPEN channel it is handled like
    any failing poll. *)
Theorem poll_without_batch_opens_then_closes w st data :
  reachable w →
  data ≠ JNull →
  batch_of (HttpResponse st (Some data)) = None →
  let w' := exec (gather_settled (HttpResponse st (Some data))) w in
  (readyState (this w) ∈ [CLOSED; CONNECTING] →
   is_Some (events (this w) !! "open") →
   calls w' = calls w ++ calls_to "open" ANull (handlers "open" w)
                      ++ calls_to "close" ANull (handlers "close" w)
   ∧ readyState (this w') = CLOSED
   ∧ timeout (this w') = 4000
   ∧ scheduled w' = Some 4000
   ∧ pending w' = pending w)
  ∧ (readyState (this w) = OPEN →
     w' = exec (gather_settled NetworkError) w).
Proof.
  intros Hr Hnull Hb w'.
  pose proof (reachable_Inv w Hr) as HI.
  assert (gather_then (HttpResponse st (Some data)) w
          = if includes [CLOSED; CONNECTING] (readyState (this w)) then
              match events (this w) !! "open" with
              | None => (w, Throw)
              | Some _ => (after_open w, Throw)
              end
            else (mark_open w, Throw)) as Hthen.
  { rewrite gather_then_eq. simpl in Hb.
    assert (execute (js_prop "messages" data) w
            = if includes [CLOSED; CONNECTING] (readyState (this w)) then
                match events (this w) !! "open" with
                | None => (w, Throw)
                | Some _ => (after_open w, Throw)
                end
              else (mark_open w, Throw)) as He.
    { rewrite execute_eq. destruct (js_prop "messages" data) as [[]|]; done. }
    by destruct data. }
  split.
  - intros Hs [hs Ho].
    assert (includes [CLOSED; CONNECTING] (readyState (this w)) = true) as Hi
      by (by apply bool_decide_eq_true).
    assert (w' = after_catch (after_open w)) as ->.
    { subst w'. unfold exec. by rewrite gather_settled_eq, Hthen, Hi, Ho. }
    assert (Inv (after_catch (after_open w))) as HI'
      by (by apply after_catch_Inv, after_open_Inv).
    assert (timeout (this (after_catch (after_open w))) = 4000) as Ht.
    { simpl. rewrite (inv_open w HI). done. }
    split_and!; try done.
    + simpl. by rewrite <- app_assoc.
    + by rewrite Inv_scheduled, Ht.
  - intros Ho. subst w'. unfold exec.
    rewrite gather_settled_eq, Hthen, Ho. simpl.
    rewrite (gather_settled_failure NetworkError w eq_refl). simpl.
    unfold after_catch, mark_open, rearmed, handlers. simpl. by rewrite Ho.
Qed.

(** X11: the HTTP status of a response is never looked at: two responses
    with the same body have the same effect, for the three kinds of
    request; a body that is not JSON has the effect of a network error; and
    for a poll the body [null] has it too. *)
Theorem status_is_ignored w r :
  (∀ s1 s2 parsed,
      step w (Settle r (HttpResponse s1 parsed)) = step w (Settle r (HttpResponse s2 parsed)))
  ∧ (∀ s, step w (Settle r (HttpResponse s None)) = step w (Settle r NetworkError))
  ∧ (∀ s q, find_request r (pending w) = Some q → chain q = GatherChain →
       step w (Settle r (HttpResponse s (Some JNull))) = step w (Settle r NetworkError)).
Proof.
  split_and!.
  - intros s1 s2 parsed. simpl.
    destruct (find_request r (pending w)) as [q|]; [|done].
    by destruct (chain q).
  - intros s. simpl.
    destruct (find_request r (pending w)) as [q|]; [|done].
    by destruct (chain q).
  - intros s q Hq Hc. simpl. by rewrite Hq, Hc.
Qed.

(** X12: the reply to a [send], when it parses to an object with a truthy
    [type].  If it also carries a batch and the channel is OPEN or has an
    "open" entry, [execute] runs first: the batch is relayed, the state is
    OPEN, and then every "message" handler is called once with the whole
    serialised reply.  If it has no "messages" (or a falsy one) only the
    calls are made and the channel is otherwise left as it is. *)
Theorem send_reply_with_type w st fields hs :
  truthy (lookup_field "type" fields) = true →
  events (this w) !! "message" = Some hs →
  let res := HttpResponse st (Some (JObj fields)) in
  let delivery := calls_to "message" (AData (JSON_stringify (JObj fields))) hs in
  (∀ ms, lookup_field "messages" fields = Some (JArr ms) →
     readyState (this w) = OPEN ∨ is_Some (events (this w) !! "open") →
     ∃ w', send_settled res w = (w', Normal ())
           ∧ w' = add_calls delivery (execute (Some (JArr ms)) w).1
           ∧ readyState (this w') = OPEN
           ∧ pending w' = pending w
                          ++ number (next_request w) (map (relay (location (this w))) ms))
  ∧ (truthy (lookup_field "messages" fields) = false →
     send_settled res w = (add_calls delivery w, Normal ())).
Proof.
  intros Ht Hm res delivery. subst res. split.
  - intros ms Hms Hok. rewrite send_settled_eq. simpl. rewrite Hms, Ht. simpl.
    rewrite execute_eq.
    assert (∀ w1, events (this w1) = events (this w) →
                  events_forEach "message" (AData (JSON_stringify (JObj fields))) w1
                  = (add_calls delivery w1, Normal ())) as Hd.
    { intros w1 He. by rewrite events_forEach_eq, He, Hm. }
    destruct (includes _ _) eqn:Hi.
    + destruct Hok as [Ho | [hs' Ho]]; [by rewrite Ho in Hi|].
      rewrite Ho. rewrite Hd by done. eexists. split_and!; done.
    + rewrite Hd by done. eexists. split_and!; done.
  - intros Hf. rewrite send_settled_eq. simpl. rewrite Hf, Ht.
    by rewrite events_forEach_eq, Hm.
Qed.

(** X13: the reply to a [send] whose "messages" is truthy but not an array
    (a number, a string, an object).  [execute] is called with it: on a
    channel that is OPEN or has an "open" entry the state becomes OPEN (the
    open transition runs if the channel was CLOSED or CONNECTING), then
    [forEach] throws: the rejection is unhandled, nothing is relayed, and
    the reply is not passed to the "message" handlers even when it has a
    [type]. *)
Theorem send_reply_with_bad_batch w st fields m :
  lookup_field "messages" fields = Some m →
  truthy (Some m) = true →
  (∀ ms, m ≠ JArr ms) →
  readyState (this w) = OPEN ∨ is_Some (events (this w) !! "open") →
  let w' := top_level (send_settled (HttpResponse st (Some (JObj fields)))) w in
  readyState (this w') = OPEN
  ∧ unhandled w' = S (unhandled w)
  ∧ pending w' = pending w
  ∧ calls w' = calls w ++ (if includes [CLOSED; CONNECTING] (readyState (this w))
                           then calls_to "open" ANull (handlers "open" w) else [])
  ∧ ∀ h, fired "message" h w' = fired "message" h w.
Proof.
  intros Hm Ht Harr Hok w'.
  assert (w' = rejected (if includes [CLOSED; CONNECTING] (readyState (this w))
                         then after_open w else mark_open w)) as ->.
  { subst w'. rewrite top_level_eq, send_settled_eq. simpl. rewrite Hm, Ht.
    rewrite execute_eq.
    destruct (includes _ _) eqn:Hi.
    - destruct Hok as [Ho | [hs' Ho]]; [by rewrite Ho in Hi|]. rewrite Ho.
      destruct m; try done. by destruct (Harr items).
    - destruct m; try done. by destruct (Harr items). }
  destruct (includes _ _) eqn:Hi; simpl.
  - split_and!; try done. intros h. unfold fired. simpl.
    rewrite count_app. rewrite (count_none "message" h (calls_to _ _ _)); [lia|].
    apply Forall_forall. intros c (h' & -> & _)%list_elem_of_fmap. by intros [? _].
  - split_and!; try done. by rewrite app_nil_r.
Qed.

(** X14: in every state the channel reaches, the timer it holds is the one
    live timer; when it fires a new poll of the location is put in flight,
    whether or not earlier polls are still in flight, and nothing else
    changes. *)
Theorem tick_issues_a_poll w :
  reachable w →
  ∃ t, interval (this w) = Some t
       ∧ (∀ t', is_Some (timers w !! t') ↔ t' = t)
       ∧ pending (step w (Tick t))
         = pending w ++ [(next_request w,
                          mkRequest (location (this w)) "get" None GatherChain)]
       ∧ this (step w (Tick t)) = this w
       ∧ timers (step w (Tick t)) = timers w
       ∧ calls (step w (Tick t)) = calls w
       ∧ ∀ t', t' ≠ t → step w (Tick t') = w.
Proof.
  intros Hr. destruct (reachable_Inv w Hr) as [(t & Ht & Hl) _ _ _ _ _ _].
  exists t.
  assert (∀ t', is_Some (timers w !! t') ↔ t' = t) as Hlive.
  { intros t'. rewrite Hl. split.
    - intros [p Hp]. apply lookup_singleton_Some in Hp as [? _]. done.
    - intros ->. rewrite lookup_singleton_eq. by eexists. }
  simpl. rewrite bool_decide_eq_true_2 by (by apply Hlive).
  split_and!; try done.
  intros t' Hne. rewrite bool_decide_eq_false_2; [done|]. by rewrite Hlive.
Qed.

End MoreProperties.

(** * Properties of the selectors *)

(** X15: [appContext] never answers "notebook": line 233 takes [colab] from
    [isNotebook], so a page opened with the notebook parameter is reported
    as "colab"; the answer is "desktop" exactly under Electron and
    "browser" exactly when neither holds. *)
Theorem appContext_never_notebook electron notebook :
  appContext electron notebook ≠ "notebook"
  ∧ (appContext electron notebook = "desktop" ↔ electron = true)
  ∧ (appContext electron notebook = "colab"
     ↔ electron = false ∧ truthy_string notebook = true)
  ∧ (appContext electron notebook = "browser"
     ↔ electron = false ∧ truthy_string notebook = false).
Proof.
  unfold appContext. destruct electron, (truthy_string notebook);
    split_and!; try done; split; try done; by intros [? ?].
Qed.

Lemma fold_null_named stats acc :
  fold_left null_named stats acc
  = match last (filter (λ cur, has_null_name cur = true) stats) with
    | Some cur => lookup_field "result" cur
    | None => acc
    end.
Proof.
  revert acc. induction stats as [|cur stats IH]; intros acc; [done|].
  simpl. rewrite IH, filter_cons. unfold null_named, has_null_name.
  destruct (lookup_field "name" cur) as [[]|]; simpl;
    try (destruct (decide (false = true)); [done|]; done).
  destruct (decide (true = true)); [|done].
  rewrite last_cons. by destruct (last (filter _ stats)).
Qed.

(** X16: [totalCount] is the [result] of the last aggregation whose [name]
    is [null], and [null] when there is none, when the list is empty or when
    the statistics are [null]; [filteredCount] is the same function of the
    extended statistics. *)
Theorem totalCount_is_last_null_named stats :
  totalCount stats
  = match last (filter (λ cur, has_null_name cur = true) (default [] stats)) with
    | Some cur => lookup_field "result" cur
    | None => Some JNull
    end
  ∧ filteredCount stats = totalCount stats
  ∧ totalCount None = Some JNull
  ∧ totalCount (Some []) = Some JNull.
Proof. split_and!; try done. apply fold_null_named. Qed.

Lemma has_dot_app s1 s2 : has_dot (s1 +:+ s2) = has_dot s1 || has_dot s2.
Proof.
  induction s1 as [|c s1 IH]; [done|]. simpl. rewrite IH. by rewrite orb_assoc.
Qed.

Lemma append_empty_r s : s +:+ EmptyString = s.
Proof.
  induction s as [|c s IH]; [done|].
  change (String c (s +:+ EmptyString) = String c s). by rewrite IH.
Qed.

Lemma append_associative s1 s2 s3 : (s1 +:+ s2) +:+ s3 = s1 +:+ (s2 +:+ s3).
Proof.
  induction s1 as [|c s1 IH]; [done|].
  change (String c ((s1 +:+ s2) +:+ s3) = String c (s1 +:+ (s2 +:+ s3))).
  by rewrite IH.
Qed.

Lemma split_dots_nonempty piece s : split_dots piece s ≠ [].
Proof.
  revert piece. induction s as [|c s IH]; intros piece; simpl; [done|].
  destruct (Ascii.eqb c dot); [done | apply IH].
Qed.

Lemma last_piece_cons x piece s :
  last_piece (x :: split_dots piece s) = last_piece (split_dots piece s).
Proof.
  unfold last_piece. rewrite last_cons.
  destruct (last (split_dots piece s)) eqn:El; [done|].
  apply last_None in El. by destruct (split_dots_nonempty piece s).
Qed.

Lemma split_dots_last piece s :
  ∃ before,
    piece +:+ s = before +:+ last_piece (split_dots piece s)
    ∧ (before = EmptyString ∨ ∃ b, before = b +:+ ".")
    ∧ (has_dot piece = false → has_dot (last_piece (split_dots piece s)) = false)
    ∧ (has_dot piece = false → has_dot s = false →
       last_piece (split_dots piece s) = piece +:+ s).
Proof.
  revert piece. induction s as [|c s IH]; intros piece.
  - exists EmptyString. simpl. unfold last_piece. simpl. rewrite append_empty_r.
    split_and!; [done | by left | done | done].
  - simpl. destruct (Ascii.eqb c dot) eqn:Hc.
    + apply Ascii.eqb_eq in Hc as ->.
      destruct (IH EmptyString) as (before & He & Hb & Hd & _).
      rewrite last_piece_cons. simpl in He.
      exists (piece +:+ "." +:+ before). split_and!.
      * rewrite !append_associative. by rewrite <- He.
      * right. destruct Hb as [->|[b ->]].
        -- exists piece. by rewrite append_empty_r.
        -- exists (piece +:+ "." +:+ b). by rewrite !append_associative.
      * intros _. by apply Hd.
      * intros _. simpl. done.
    + destruct (IH (piece +:+ String c EmptyString)) as (before & He & Hb & Hd & Hw).
      exists before. split_and!.
      * rewrite <- He, append_associative. done.
      * done.
      * intros Hp. apply Hd. rewrite has_dot_app. simpl. by rewrite Hp, Hc.
      * intros Hp Hs. simpl in Hs. rewrite Hw.
        -- by rewrite append_associative.
        -- rewrite has_dot_app. simpl. by rewrite Hp, Hc.
        -- done.
Qed.

Lemma split_dots_qualified t package piece :
  has_dot t = false →
  last_piece (split_dots piece (package +:+ "." +:+ t)) = t.
Proof.
  intros Ht. revert piece. induction package as [|c package IH]; intros piece.
  - change (EmptyString +:+ "." +:+ t) with (String dot t).
    simpl. rewrite last_piece_cons.
    destruct (split_dots_last EmptyString t) as (_ & _ & _ & _ & Hw). by apply Hw.
  - simpl. destruct (Ascii.eqb c dot); [rewrite last_piece_cons|]; apply IH.
Qed.

(** X22: the type name taken from an embedded type,
    [t.split(".").slice(-1)[0]], is what follows the last dot: it has no
    dot, the embedded type is some prefix, empty or ending in a dot,
    followed by it, and a name without a dot qualified by any package is
    found again. *)
Theorem type_name_follows_last_dot t :
  let type_name := last_piece (split_dot t) in
  has_dot type_name = false
  ∧ (∃ before, t = before +:+ type_name
               ∧ (before = EmptyString ∨ ∃ b, before = b +:+ "."))
  ∧ (has_dot t = false → type_name = t)
  ∧ ∀ package, has_dot t = false → last_piece (split_dot (package +:+ "." +:+ t)) = t.
Proof.
  intros type_name. subst type_name. unfold split_dot.
  destruct (split_dots_last EmptyString t) as (before & He & Hb & Hd & Hw).
  split_and!.
  - by apply Hd.
  - exists before. by split.
  - intros Ht. by apply Hw.
  - intros package Ht. by apply split_dots_qualified.
Qed.

Lemma labelTuples_map {A} (n : A → string) (t : A → string) (ls : list A) :
  labelTuples (map n ls) (map t ls) = map (λ l, (n l, Some (t l))) ls.
Proof.
  unfold labelTuples.
  change (map n ls) with (n <$> ls). change (map t ls) with (t <$> ls).
  change (map (λ l, (n l, Some (t l))) ls) with ((λ l, (n l, Some (t l))) <$> ls).
  apply list_eq. intros i.
  rewrite list_lookup_imap, !list_lookup_fmap.
  by destruct (ls !! i).
Qed.

(** X17: [labelTypes] never throws: every field that passes [labelFilter]
    has an embedded type, its last dotted piece is one of VALID_LABEL_TYPES,
    and [labelTuples] pairs every label name with that piece, none with
    [undefined]. *)
Theorem labelTypes_defined VALID_LABEL_TYPES selected :
  let ls := labels VALID_LABEL_TYPES selected in
  labelTypes VALID_LABEL_TYPES selected = Some (map doc_type_name ls)
  ∧ Forall (λ l, is_Some (embedded_doc_type l)
                 ∧ doc_type_name l ∈ VALID_LABEL_TYPES
                 ∧ l ∈ selected) ls
  ∧ labelTuples (labelNames VALID_LABEL_TYPES selected) (map doc_type_name ls)
    = map (λ l, (name l, Some (doc_type_name l))) ls.
Proof.
  intros ls.
  assert (Forall (λ l, is_Some (embedded_doc_type l)
                       ∧ doc_type_name l ∈ VALID_LABEL_TYPES
                       ∧ l ∈ selected) ls) as Hls.
  { apply Forall_forall. intros l [Hf Hin]%list_elem_of_filter.
    unfold labelFilter, doc_type_name in *.
    destruct (embedded_doc_type l) as [t|]; [|done]. simpl.
    apply andb_true_iff in Hf as [_ Hv]. apply bool_decide_eq_true in Hv.
    split_and!; [by eexists | done | done]. }
  split_and!; [| done | apply labelTuples_map].
  unfold labelTypes. fold ls. clear -Hls.
  induction Hls as [|l ls [[t Ht] _] _ IH]; [done|].
  simpl. rewrite Ht. simpl. simpl in IH. rewrite IH. simpl.
  unfold doc_type_name at 2. by rewrite Ht.
Qed.

Lemma labelMap_from_lookup tuples (acc : gmap string (option string)) n :
  fold_left (λ acc cur, acc ∪ {[cur.1 := cur.2]}) tuples acc !! n
  = match acc !! n with
    | Some v => Some v
    | None => snd <$> head (filter (λ t, t.1 = n) tuples)
    end.
Proof.
  revert acc. induction tuples as [|[k v] tuples IH]; intros acc; simpl.
  - by destruct (acc !! n).
  - rewrite IH, lookup_union, filter_cons. simpl.
    destruct (decide (k = n)) as [->|Hk].
    + rewrite lookup_singleton_eq. by destruct (acc !! n).
    + rewrite lookup_singleton_ne by done. by destruct (acc !! n).
Qed.

Lemma pairs_from_cons i types cur names :
  imap (λ j m, (m, types !! (i + j)%nat)) (cur :: names)
  = (cur, (types : list string) !! i)
    :: imap (λ j (m : string), (m, types !! (S i + j)%nat)) names.
Proof.
  rewrite imap_cons. rewrite Nat.add_0_r. f_equal.
  apply imap_ext. intros j m _. simpl. do 2 f_equal. lia.
Qed.

Lemma scalarsMap_from_lookup i types names acc n :
  scalarsMap_from i types names acc !! n
  = match last (filter (λ t, t.1 = n) (imap (λ j m, (m, types !! (i + j)%nat)) names)) with
    | Some t => Some t.2
    | None => acc !! n
    end.
Proof.
  revert i acc. induction names as [|cur names IH]; intros i acc; [done|].
  simpl scalarsMap_from. rewrite IH, pairs_from_cons, filter_cons. simpl.
  destruct (decide (cur = n)) as [->|Hk].
  - rewrite lookup_insert_eq.
    rewrite last_cons. by destruct (last (filter _ (imap _ names))).
  - by rewrite lookup_insert_ne.
Qed.

Lemma head_last_unique {A} (key : A → string) (l : list A) n :
  NoDup (map key l) →
  head (filter (λ t, key t = n) l) = last (filter (λ t, key t = n) l).
Proof.
  induction l as [|x l IH]; intros Hn; [done|].
  simpl in Hn. apply NoDup_cons in Hn as [Hx Hn].
  rewrite filter_cons. destruct (decide (key x = n)) as [<-|Hk]; [|by apply IH].
  assert (filter (λ t, key t = key x) l = []) as ->; [|done].
  destruct (filter (λ t, key t = key x) l) as [|y l'] eqn:E; [done|].
  assert (y ∈ filter (λ t, key t = key x) l) as Hy by (rewrite E; apply list_elem_of_here).
  apply list_elem_of_filter in Hy as [Hy1 Hy2].
  destruct Hx. rewrite <- Hy1. by apply list_elem_of_fmap_2.
Qed.

(** X18: when a name occurs more than once, [labelMap] keeps the type of
    its first tuple (the spread of [acc] comes last) and [scalarsMap] that
    of its last (the new key comes last); both have exactly the given names
    as keys, and on names without repetition they are the same map. *)
Theorem labelMap_first_scalarsMap_last names types tuples :
  (∀ n, labelMap tuples !! n = snd <$> head (filter (λ t, t.1 = n) tuples))
  ∧ (∀ n, scalarsMap names types !! n
          = snd <$> last (filter (λ t, t.1 = n) (labelTuples names types)))
  ∧ (∀ n, is_Some (scalarsMap names types !! n) ↔ n ∈ names)
  ∧ (∀ n, is_Some (labelMap (labelTuples names types) !! n) ↔ n ∈ names)
  ∧ (NoDup names → labelMap (labelTuples names types) = scalarsMap names types).
Proof.
  assert (∀ n, labelMap tuples !! n = snd <$> head (filter (λ t, t.1 = n) tuples)) as H1.
  { intros n. unfold labelMap. by rewrite labelMap_from_lookup, lookup_empty. }
  assert (∀ n, labelMap (labelTuples names types) !! n
               = snd <$> head (filter (λ t, t.1 = n) (labelTuples names types))) as H1'.
  { intros n. unfold labelMap. by rewrite labelMap_from_lookup, lookup_empty. }
  assert (∀ n, scalarsMap names types !! n
               = snd <$> last (filter (λ t, t.1 = n) (labelTuples names types))) as H2.
  { intros n. unfold scalarsMap. rewrite scalarsMap_from_lookup, lookup_empty.
    unfold labelTuples. simpl. by destruct (last _). }
  assert (map fst (labelTuples names types) = names) as Hfst.
  { unfold labelTuples. apply list_eq. intros i.
    rewrite list_lookup_fmap, list_lookup_imap. by destruct (names !! i). }
  assert (∀ n, filter (λ t : string * option string, t.1 = n) (labelTuples names types) ≠ []
               ↔ n ∈ names) as Hne.
  { intros n. split.
    - intros Hf. destruct (filter _ _) as [|t l] eqn:E; [done|].
      assert (t ∈ filter (λ t : string * option string, t.1 = n) (labelTuples names types))
        as Ht by (rewrite E; apply list_elem_of_here).
      apply list_elem_of_filter in Ht as [<- Ht].
      rewrite <- Hfst. by apply list_elem_of_fmap_2.
    - intros Hin Hf. rewrite <- Hfst in Hin.
      apply list_elem_of_fmap in Hin as (t & -> & Ht).
      assert (t ∈ filter (λ t' : string * option string, t'.1 = t.1)
                    (labelTuples names types)) as Hin
        by (by apply list_elem_of_filter).
      rewrite Hf in Hin. by apply elem_of_nil in Hin. }
  split_and!; try done.
  - intros n. rewrite H2, <- Hne.
    destruct (filter _ _) as [|t l] using rev_ind; simpl.
    + split; [by intros [? ?] | done].
    + rewrite last_snoc. simpl. split; [intros _ | by eexists].
      by destruct l.
  - intros n. rewrite H1', <- Hne.
    destruct (filter _ _) as [|t l]; simpl.
    + split; [by intros [? ?] | done].
    + split; [done | by eexists].
  - intros Hn. apply map_eq. intros n. rewrite H1', H2. f_equal.
    apply (head_last_unique fst). by rewrite Hfst.
Qed.

Lemma startsWith_slice p s :
  startsWith p s = true → s = p +:+ slice (String.length p) s.
Proof.
  unfold startsWith. revert s. induction p as [|c p IH]; intros s Hp; [done|].
  destruct s as [|c' s]; [done|]. simpl in *.
  destruct (Ascii.ascii_dec c c') as [->|]; [|done].
  change (String c' s = String c' (p +:+ slice (String.length p) s)).
  f_equal. by apply IH.
Qed.

(** X19: [labelsPath] always answers the path it was given followed by
    ".label", with nothing in between or with "." and the lower-cased name
    of one of VALID_LIST_TYPES.  For a video dataset the path "frames." + l
    is resolved with the type of the frame label l; for any other dataset
    the frame labels are never consulted, whatever the path. *)
Theorem labelsPath_shape VALID_LIST_TYPES toLowerCase isVideo labelMap_of path :
  (∃ middle,
      labelsPath VALID_LIST_TYPES toLowerCase isVideo labelMap_of path
      = path +:+ middle +:+ ".label"
      ∧ (middle = EmptyString
         ∨ ∃ t, t ∈ VALID_LIST_TYPES ∧ middle = "." +:+ toLowerCase t))
  ∧ (∀ l t, mjoin (labelMap_of "frame" !! l) = Some t →
       labelsPath VALID_LIST_TYPES toLowerCase true labelMap_of ("frames." +:+ l)
       = if bool_decide (t ∈ VALID_LIST_TYPES)
         then "frames." +:+ l +:+ "." +:+ toLowerCase t +:+ ".label"
         else "frames." +:+ l +:+ ".label")
  ∧ (∀ other, other "sample" = labelMap_of "sample" →
       labelsPath VALID_LIST_TYPES toLowerCase false other path
       = labelsPath VALID_LIST_TYPES toLowerCase false labelMap_of path).
Proof.
  split_and!.
  - unfold labelsPath.
    change (String.length "frames.") with 7%nat. generalize (slice 7 path). intros lbl.
    destruct (isVideo && startsWith "frames." path); simpl.
    + destruct (mjoin (labelMap_of "frame" !! lbl)) as [t|];
        [|exists EmptyString; by eauto].
      case_bool_decide; [|exists EmptyString; by eauto].
      exists ("." +:+ toLowerCase t). split; [done | by eauto].
    + destruct (mjoin (labelMap_of "sample" !! path)) as [t|];
        [|exists EmptyString; by eauto].
      case_bool_decide; [|exists EmptyString; by eauto].
      exists ("." +:+ toLowerCase t). split; [done | by eauto].
  - intros l t Ht. unfold labelsPath.
    change (startsWith "frames." ("frames." +:+ l)) with (startsWith EmptyString l).
    assert (startsWith EmptyString l = true) as -> by (by destruct l).
    change (slice (String.length "frames.") ("frames." +:+ l)) with l.
    simpl. rewrite Ht. by case_bool_decide.
  - intros other Hs. unfold labelsPath. simpl. by rewrite Hs.
Qed.

Section FilterStageProperties.
Context `{Runtime}.



End FilterStageProperties.

(** * The further properties at work *)

Section MoreExamples.
Local Existing Instance sample_runtime.
Local Open Scope nat_scope.

Ltac reached_by acts := exists sample_location, acts; vm_compute; reflexivity.

(** The first poll of the sample channel is answered with an error object:
    "open" handler 1 and then "close" handler 3 are called. *)
Lemma poll_without_batch_opens_then_closes_witness :
  reachable sample_registered
  ∧ JObj [("error", JStr "down")] ≠ JNull
  ∧ batch_of (HttpResponse 500 (Some (JObj [("error", JStr "down")]))) = None
  ∧ calls (exec (gather_settled (HttpResponse 500 (Some (JObj [("error", JStr "down")]))))
             sample_registered)
    = [mkCall "open" 1 ANull; mkCall "close" 3 ANull].
Proof.
  assert (reachable sample_registered) as R
    by reached_by [AddListener "open" 1; AddListener "message" 2;
                   AddListener "close" 3].
  assert (JObj [("error", JStr "down")] ≠ JNull) as Hn by discriminate.
  assert (batch_of (HttpResponse 500 (Some (JObj [("error", JStr "down")]))) = None)
    as Hb by reflexivity.
  split_and!; [exact R | exact Hn | exact Hb |].
  destruct (poll_without_batch_opens_then_closes sample_registered 500
              (JObj [("error", JStr "down")]) R Hn Hb) as [H1 _].
  destruct H1 as (Hc & _).
  - vm_compute. repeat constructor.
  - vm_compute. by eexists.
  - rewrite Hc. vm_compute. reflexivity.
Defined.

(** The reply to the [send] of the OPEN sample channel has a type and a
    batch of one: one request is relayed and "message" handler 2 gets the
    reply. *)
Lemma send_reply_with_type_witness :
  truthy (lookup_field "type" [("type", JStr "update"); ("messages", JArr [JStr "a"])])
  = true
  ∧ events (this sample_sending) !! "message" = Some [2]
  ∧ ∃ w', send_settled
            (HttpResponse 200
               (Some (JObj [("type", JStr "update"); ("messages", JArr [JStr "a"])])))
            sample_sending = (w', Normal ())
          ∧ readyState (this w') = OPEN.
Proof.
  assert (truthy (lookup_field "type"
                    [("type", JStr "update"); ("messages", JArr [JStr "a"])]) = true)
    as Ht by reflexivity.
  assert (events (this sample_sending) !! "message" = Some [2]) as Hm
    by (vm_compute; reflexivity).
  split_and!; [exact Ht | exact Hm |].
  destruct (send_reply_with_type sample_sending 200
              [("type", JStr "update"); ("messages", JArr [JStr "a"])] [2] Ht Hm)
    as [H1 _].
  destruct (H1 [JStr "a"]) as (w' & Hs & _ & Ho & _).
  - reflexivity.
  - left. vm_compute. reflexivity.
  - exists w'. split; [exact Hs | exact Ho].
Defined.

(** The reply to the [send] of the CLOSED sample channel has the number 5
    under "messages": the channel is OPEN afterwards and one rejection is
    unhandled. *)
Lemma send_reply_with_bad_batch_witness :
  lookup_field "messages" [("messages", JNum 5)] = Some (JNum 5)
  ∧ truthy (Some (JNum 5)) = true
  ∧ (∀ ms, JNum 5 ≠ JArr ms)
  ∧ (readyState (this sample_closed_sending) = OPEN
     ∨ is_Some (events (this sample_closed_sending) !! "open"))
  ∧ readyState (this (top_level (send_settled
                                   (HttpResponse 200 (Some (JObj [("messages", JNum 5)]))))
                        sample_closed_sending)) = OPEN.
Proof.
  assert (lookup_field "messages" [("messages", JNum 5)] = Some (JNum 5)) as Hl
    by reflexivity.
  assert (truthy (Some (JNum 5)) = true) as Ht by reflexivity.
  assert (∀ ms, JNum 5 ≠ JArr ms) as Ha by (intros ms; discriminate).
  assert (readyState (this sample_closed_sending) = OPEN
          ∨ is_Some (events (this sample_closed_sending) !! "open")) as Ho
    by (right; vm_compute; by eexists).
  split_and!; [exact Hl | exact Ht | exact Ha | exact Ho |].
  exact (proj1 (send_reply_with_bad_batch sample_closed_sending 200
                  [("messages", JNum 5)] (JNum 5) Hl Ht Ha Ho)).
Defined.

(** The OPEN sample channel holds timer 2 while poll 1 is in flight. *)
Lemma tick_issues_a_poll_witness :
  reachable sample_polling
  ∧ ∃ t, interval (this sample_polling) = Some t
         ∧ ∀ t', is_Some (timers sample_polling !! t') ↔ t' = t.
Proof.
  assert (reachable sample_polling) as R
    by reached_by [AddListener "open" 1; AddListener "message" 2;
                   AddListener "close" 3; Settle 0 (batch_response 200 []);
                   Tick 2].
  split; [exact R|].
  destruct (tick_issues_a_poll sample_polling R) as (t & Hi & Hl & _).
  exists t. split; [exact Hi | exact Hl].
Defined.


End MoreExamples.
